(** * The LLM quiz generator: parsing, uniqueness filter, scoring

    A shallow embedding of the two scripts of the repository,
    [QGtestrun3.py] (generate, parse with one regular expression, save) and
    [QGtestrun4.py] (generate twice as many, parse by blocks and lines, keep
    the questions a resume has not seen, run the quiz and store the score).

    Conventions of the embedding.
    - A Python [str] is a list of characters [str := list ascii]; the text is
      taken to be ASCII, and the character classes ([str.isspace], the regular
      expression classes [\s] and [\d], [str.upper]) are the ones Python
      uses on that range.
    - A Python [int] is a [Z].
    - The MySQL tables are lists of rows, in insertion order; the [=] of a
      [WHERE] clause is equality of the stored text.
    - The Gemini model is a function from the prompt to the text of the
      response; every call is logged in the world, so that one can say the
      model was, or was not, invoked.
    - Statements run in a state-and-exception monad over the world: what was
      committed before an exception stays committed.
    - The standard output is the list of the texts printed, one per call of
      [print] or [input]; the pictographs of the messages are left out. *)

From Stdlib Require Import Ascii String.
From Stdlib Require Import List ZArith Lia Bool Arith.
From Stdlib Require Import Numbers.DecimalString.
Import ListNotations.

Set Implicit Arguments.

(** ** Python strings *)

Definition str := list ascii.

Definition lit (s : string) : str := list_ascii_of_string s.

Definition nl : ascii := "010"%char.

(** ["\n".join(lines)] *)
Fixpoint join_lines (l : list str) : str :=
  match l with
  | [] => []
  | [x] => x
  | x :: rest => x ++ nl :: join_lines rest
  end.

Definition text_of (l : list string) : str := join_lines (map lit l).

Definition str_eqb (a b : str) : bool :=
  if list_eq_dec ascii_dec a b then true else false.

(** [str.isspace] on one character, which is also the class [\s] of [re]:
    tab, line feed, vertical tab, form feed, carriage return, the four
    separators 28..31 and the space. *)
Definition isspace (c : ascii) : bool :=
  let n := nat_of_ascii c in
  ((9 <=? n) && (n <=? 13)) || ((28 <=? n) && (n <=? 32)).

(** The class [\d] of [re]: a decimal digit. *)
Definition isdigit (c : ascii) : bool :=
  let n := nat_of_ascii c in (48 <=? n) && (n <=? 57).

(** [str.upper] on one character. *)
Definition upper_char (c : ascii) : ascii :=
  let n := nat_of_ascii c in
  if (97 <=? n) && (n <=? 122) then ascii_of_nat (n - 32) else c.

Definition upper (s : str) : str := map upper_char s.

Fixpoint lstrip (s : str) : str :=
  match s with
  | c :: s' => if isspace c then lstrip s' else s
  | [] => []
  end.

Definition rstrip (s : str) : str := rev (lstrip (rev s)).

(** [str.strip()] *)
Definition strip (s : str) : str := rstrip (lstrip s).

(** [s.split(sep)] and [s.split(sep, maxsplit)] for a separator of one
    character: [cur] is the piece being read, [budget] the number of cuts
    still allowed ([None]: no limit). The result is never empty. *)
Fixpoint split_from (sep : ascii) (budget : option nat) (cur s : str)
  : list str :=
  match s with
  | [] => [cur]
  | c :: s' =>
      if Ascii.eqb c sep then
        match budget with
        | Some 0 => [cur ++ s]
        | Some (S k) => cur :: split_from sep (Some k) [] s'
        | None => cur :: split_from sep None [] s'
        end
      else split_from sep budget (cur ++ [c]) s'
  end.

Definition split (sep : ascii) (s : str) : list str :=
  split_from sep None [] s.

Definition split_max (sep : ascii) (maxsplit : nat) (s : str) : list str :=
  split_from sep (Some maxsplit) [] s.

(** [str(n)] for an int, as an f-string formats it. *)
Definition str_of_int (n : Z) : str :=
  lit (NilEmpty.string_of_int (Z.to_int n)).

(** The value of a character as a decimal digit. *)
Definition digit_val (c : ascii) : Z := Z.of_nat (nat_of_ascii c - 48).

(** [int(s)] on a text: blanks around it are dropped, one sign is allowed,
    then decimal digits, with single underscores between digits. Anything
    else is a [ValueError] ([None]). *)
Fixpoint int_digits (acc : Z) (after_digit : bool) (s : str) : option Z :=
  match s with
  | [] => if after_digit then Some acc else None
  | c :: s' =>
      if isdigit c then int_digits (acc * 10 + digit_val c) true s'
      else if Ascii.eqb c "_" then
        if after_digit then int_digits acc false s' else None
      else None
  end.

Definition int_of_str (s : str) : option Z :=
  match strip s with
  | "-"%char :: d => option_map Z.opp (int_digits 0 false d)
  | "+"%char :: d => int_digits 0 false d
  | d => int_digits 0 false d
  end.

(** ** The regular expressions of the two parsers

    Both patterns are sequences of atoms: a character class taken once,
    or repeated ([+], [*], [*?]), inside a capturing group or not. *)

Inductive cls : Type :=
| Lit (c : ascii)          (* an ordinary or escaped character: Q, \., \) *)
| Digit                    (* \d *)
| Space                    (* \s *)
| Any                      (* . under re.S: every character, newline too *)
| Range (lo hi : ascii).   (* [A-D] *)

Inductive quant : Type :=
| One          (* the class, once *)
| Plus         (* greedy + *)
| Star         (* greedy * *)
| LazyStar.    (* *? *)

Record atom : Type := mkAtom {
  a_cls : cls;
  a_quant : quant;
  a_group : bool   (* inside ( ) *)
}.

Definition regex := list atom.

Definition cls_match (k : cls) (c : ascii) : bool :=
  match k with
  | Lit x => Ascii.eqb c x
  | Digit => isdigit c
  | Space => isspace c
  | Any => true
  | Range lo hi =>
      (nat_of_ascii lo <=? nat_of_ascii c) && (nat_of_ascii c <=? nat_of_ascii hi)
  end.

(** Repetition of a class with backtracking: [acc] is what the repetition
    has taken so far, [k] matches the rest of the pattern. The greedy form
    takes one more character first and falls back to stopping here; the
    lazy form tries to stop here first. *)
Fixpoint rep (R : Type) (greedy : bool) (p : ascii -> bool)
  (k : str -> str -> option R) (acc s : str) : option R :=
  match s with
  | c :: s' =>
      if p c then
        if greedy then
          match rep greedy p k (acc ++ [c]) s' with
          | Some r => Some r
          | None => k acc s
          end
        else
          match k acc s with
          | Some r => Some r
          | None => rep greedy p k (acc ++ [c]) s'
          end
      else k acc s
  | [] => k acc s
  end.

(** Match the pattern at the start of [s]: the groups captured, in order,
    and what is left of [s] after the match. [caps] holds the groups so far,
    last first. *)
Fixpoint match_here (r : regex) (caps : list str) (s : str)
  : option (list str * str) :=
  match r with
  | [] => Some (rev caps, s)
  | a :: r' =>
      let k := fun taken rest =>
        match_here r' (if a_group a then taken :: caps else caps) rest in
      let p := cls_match (a_cls a) in
      match a_quant a with
      | One =>
          match s with
          | c :: s' => if p c then k [c] s' else None
          | [] => None
          end
      | Plus =>
          match s with
          | c :: s' => if p c then rep true p k [c] s' else None
          | [] => None
          end
      | Star => rep true p k [] s
      | LazyStar => rep false p k [] s
      end
  end.

(** The scan shared by [re.findall] and [re.split]: the leftmost match is
    looked for at each position in turn; after a match the scan resumes
    where the match ended (the two patterns below begin with the letter Q,
    so no match of theirs is empty, and none is looked for at the very end
    of the text). [skip] counts the characters of the last match
    still to step over, [gap] is the text since the last match. The result
    lists, for every match, the text before it and its groups, and ends with
    the text after the last match. *)
Fixpoint scan (r : regex) (skip : nat) (gap s : str)
  : list (str * list str) * str :=
  match s with
  | [] => ([], gap)
  | c :: s' =>
      match skip with
      | S n => scan r n gap s'
      | O =>
          match match_here r [] s with
          | Some (caps, rest) =>
              let n := length s - length rest in
              match n with
              | O => (* an empty match: report it and move on *)
                  let '(ms, last) := scan r 0 [c] s' in
                  ((gap, caps) :: ms, last)
              | S n' =>
                  let '(ms, last) := scan r n' [] s' in
                  ((gap, caps) :: ms, last)
              end
          | None => scan r 0 (gap ++ [c]) s'
          end
      end
  end.

(** [re.findall(pattern, text)]: the groups of every match. *)
Definition findall (r : regex) (s : str) : list (list str) :=
  map snd (fst (scan r 0 [] s)).

(** [re.split(pattern, text)] for a pattern without groups. *)
Definition re_split (r : regex) (s : str) : list str :=
  let '(ms, last) := scan r 0 [] s in map fst ms ++ [last].

(** ** The world the scripts run in *)

(** A row of [quiz_questions]. *)
Record QuestionRow : Type := mkQuestionRow {
  row_question_no : Z;
  row_skill : str;
  row_mode : str;
  row_question : str;
  row_option_a : str;
  row_option_b : str;
  row_option_c : str;
  row_option_d : str;
  row_correct_answer : str
}.

(** A row of [quiz_attempts]. *)
Record AttemptRow : Type := mkAttemptRow {
  att_resume_id : Z;
  att_skill : str;
  att_mode : str;
  att_total_questions : Z;
  att_correct_answers : Z
}.

Record World : Type := mkWorld {
  gemini_api_key : option str;          (* os.getenv("GEMINI_API_KEY") *)
  mysql_up : bool;                      (* does mysql.connector.connect succeed *)
  gemini : str -> str;                  (* the model: prompt to response.text *)
  prompts_sent : list str;              (* the calls of generate_content so far *)
  skill_set : list (str * str);         (* table skill_set: (skills, Content) *)
  resume_history : list (Z * str);      (* table resume_history: (resume_id, question) *)
  quiz_questions : list QuestionRow;    (* table quiz_questions *)
  quiz_attempts : list AttemptRow;      (* table quiz_attempts *)
  stdin : list str;                     (* the lines still to be typed *)
  stdout : list str                     (* what was printed, oldest first *)
}.

Inductive exn : Type :=
| IndexError
| TypeError
| ValueError
| EOFError
| MySQLError
| SystemExit (code : Z).

Inductive result (A : Type) : Type :=
| Ok (a : A)
| Raise (e : exn).
Arguments Raise {A} e.

(** A statement: it ends with a value or an exception, and a new world
    either way. *)
Definition M (A : Type) : Type := World -> result A * World.

Definition ret {A} (a : A) : M A := fun w => (Ok a, w).

Definition raise {A} (e : exn) : M A := fun w => (Raise e, w).

Definition bind {A B} (m : M A) (f : A -> M B) : M B :=
  fun w =>
    match m w with
    | (Ok a, w') => f a w'
    | (Raise e, w') => (Raise e, w')
    end.

Notation "x <- m ;; k" := (bind m (fun x => k))
  (at level 61, m at next level, right associativity).
Notation "m ;;; k" := (bind m (fun _ => k))
  (at level 61, right associativity).

(** The value of a pure computation that may raise, as a statement. *)
Definition lift {A} (r : result A) : M A := fun w => (r, w).

(** [l[i]] *)
Definition index {A} (l : list A) (i : nat) : result A :=
  match nth_error l i with
  | Some x => Ok x
  | None => Raise IndexError
  end.

Definition rbind {A B} (r : result A) (f : A -> result B) : result B :=
  match r with
  | Ok a => f a
  | Raise e => Raise e
  end.

Notation "x <~ r ;; k" := (rbind r (fun x => k))
  (at level 61, r at next level, right associativity).

Definition set_io (w : World) (i o : list str) : World :=
  mkWorld (gemini_api_key w) (mysql_up w) (gemini w) (prompts_sent w)
    (skill_set w) (resume_history w) (quiz_questions w) (quiz_attempts w) i o.

Definition set_prompts_sent (w : World) (l : list str) : World :=
  mkWorld (gemini_api_key w) (mysql_up w) (gemini w) l
    (skill_set w) (resume_history w) (quiz_questions w) (quiz_attempts w)
    (stdin w) (stdout w).

Definition set_resume_history (w : World) (l : list (Z * str)) : World :=
  mkWorld (gemini_api_key w) (mysql_up w) (gemini w) (prompts_sent w)
    (skill_set w) l (quiz_questions w) (quiz_attempts w) (stdin w) (stdout w).

Definition set_quiz_questions (w : World) (l : list QuestionRow) : World :=
  mkWorld (gemini_api_key w) (mysql_up w) (gemini w) (prompts_sent w)
    (skill_set w) (resume_history w) l (quiz_attempts w) (stdin w) (stdout w).

Definition set_quiz_attempts (w : World) (l : list AttemptRow) : World :=
  mkWorld (gemini_api_key w) (mysql_up w) (gemini w) (prompts_sent w)
    (skill_set w) (resume_history w) (quiz_questions w) l (stdin w) (stdout w).

(** [print(s)] *)
Definition print (s : str) : M unit :=
  fun w => (Ok tt, set_io w (stdin w) (stdout w ++ [s])).

(** [input(prompt)]: the prompt is printed, one line is read. *)
Definition input (prompt : str) : M str :=
  fun w =>
    match stdin w with
    | [] => (Raise EOFError, set_io w [] (stdout w ++ [prompt]))
    | line :: rest => (Ok line, set_io w rest (stdout w ++ [prompt]))
    end.

(** [model.generate_content(prompt).text] *)
Definition generate_content (prompt : str) : M str :=
  fun w => (Ok (gemini w prompt), set_prompts_sent w (prompts_sent w ++ [prompt])).

(** [" ".join(parts)] *)
Fixpoint join_space (parts : list str) : str :=
  match parts with
  | [] => []
  | [x] => x
  | x :: rest => x ++ " "%char :: join_space rest
  end.

(** [SELECT Content FROM skill_set WHERE skills = skill] *)
Definition select_content (skill : str) (w : World) : list str :=
  map snd (filter (fun r => str_eqb (fst r) skill) (skill_set w)).

(** [SELECT DISTINCT skills FROM skill_set] *)
Definition select_topics (w : World) : list str :=
  nodup (list_eq_dec ascii_dec) (map fst (skill_set w)).

(** [SELECT id FROM resume_history WHERE resume_id = .. AND question = ..]:
    is there such a row. *)
Definition history_has (rows : list (Z * str)) (resume_id : Z) (question : str)
  : bool :=
  existsb (fun r => Z.eqb (fst r) resume_id && str_eqb (snd r) question) rows.

Definition select_history (resume_id : Z) (question : str) (w : World) : bool :=
  history_has (resume_history w) resume_id question.

(** [INSERT INTO quiz_questions ...], committed. *)
Definition insert_question (r : QuestionRow) : M unit :=
  fun w => (Ok tt, set_quiz_questions w (quiz_questions w ++ [r])).

(** [INSERT INTO resume_history ...], committed. *)
Definition insert_history (resume_id : Z) (question : str) : M unit :=
  fun w => (Ok tt, set_resume_history w (resume_history w ++ [(resume_id, question)])).

(** [INSERT INTO quiz_attempts ...], committed. *)
Definition insert_attempt (r : AttemptRow) : M unit :=
  fun w => (Ok tt, set_quiz_attempts w (quiz_attempts w ++ [r])).

(** A loop whose body may raise: the first exception ends it. *)
Fixpoint traverse {A B} (f : A -> result B) (l : list A) : result (list B) :=
  match l with
  | [] => Ok []
  | x :: rest =>
      y <~ f x ;;
      ys <~ traverse f rest ;;
      Ok (y :: ys)
  end.

(** The atoms of a run of ordinary characters. *)
Definition chars (s : string) : regex :=
  map (fun c => mkAtom (Lit c) One false) (lit s).

Definition spaces : atom := mkAtom Space Star false.        (* \s* *)
Definition field : atom := mkAtom Any LazyStar true.        (* (.*?) *)

(** ** QGtestrun3.py: generate, parse with one regular expression, save *)

Module QGtestrun3.

(** The [Database] object: [self.conn] is a connection, or [None] when the
    connection failed. *)
Record Database : Type := mkDatabase { conn : bool }.

(** [Database.__init__] (the printed lines are given without their
    pictograph and without the text of the driver's error). *)
Definition Database_init : M Database :=
  fun w =>
    if mysql_up w
    then (print (lit "Connected to MySQL database.") ;;; ret (mkDatabase true)) w
    else (print (lit "Database connection error") ;;; ret (mkDatabase false)) w.

Definition get_all_topics (self : Database) : M (list str) :=
  if negb (conn self) then ret []
  else fun w => (Ok (select_topics w), w).

Definition get_content_for_skill (self : Database) (skill : str) : M str :=
  if negb (conn self) then ret []
  else fun w =>
    let rows := select_content skill w in
    (Ok (match rows with [] => [] | _ => join_space rows end), w).

(** A parsed question: the dict built by [parse_quiz_output]. *)
Record Question : Type := mkQuestion {
  question_no : Z;
  question : str;
  A : str;
  B : str;
  C : str;
  D : str;
  answer : str
}.

(** Insert parsed question data into the quiz_questions table. *)
Definition save_question (self : Database) (question_no : Z) (skill mode : str)
  (q : Question) : M bool :=
  if negb (conn self) then ret false
  else
    insert_question
      (mkQuestionRow question_no skill mode (question q) (A q) (B q) (C q) (D q)
         (answer q)) ;;;
    ret true.

(** [Q(\d+)\.\s*(.*?)\s*A\)\s*(.*?)\s*B\)\s*(.*?)\s*C\)\s*(.*?)\s*D\)\s*(.*?)\s*Answer:\s*([A-D])]
    read with [re.S]. *)
Definition pattern : regex :=
  chars "Q" ++ [mkAtom Digit Plus true] ++ chars "." ++ [spaces; field; spaces]
  ++ chars "A)" ++ [spaces; field; spaces]
  ++ chars "B)" ++ [spaces; field; spaces]
  ++ chars "C)" ++ [spaces; field; spaces]
  ++ chars "D)" ++ [spaces; field; spaces]
  ++ chars "Answer:" ++ [spaces; mkAtom (Range "A" "D") One true].

(** The body of the loop of [parse_quiz_output]: one match, unpacked into
    its seven groups. *)
Definition question_of_match (m : list str) : result Question :=
  match m with
  | [qno; q; a; b; c; d; ans] =>
      match int_of_str qno with
      | Some n => Ok (mkQuestion n (strip q) (strip a) (strip b) (strip c) (strip d)
                        (strip ans))
      | None => Raise ValueError
      end
  | _ => Raise ValueError
  end.

Definition parse_quiz_output (quiz_text : str) : result (list Question) :=
  let matches := findall pattern quiz_text in
  traverse question_of_match matches.

(** The [QuizGenerator] object holds the database object (and the model). *)
Record QuizGenerator : Type := mkQuizGenerator { db : Database }.

Definition QuizGenerator_init : M QuizGenerator :=
  fun w =>
    match gemini_api_key w with
    | None | Some [] =>
        (print (lit "GEMINI_API_KEY missing in .env") ;;; raise (SystemExit 1)) w
    | Some _ => (d <- Database_init ;; ret (mkQuizGenerator d)) w
    end.

Definition _build_prompt (skill level : str) (num_questions : Z) (content : str)
  : str :=
  [nl] ++ lit "Generate " ++ str_of_int num_questions ++ lit " " ++ level
  ++ lit "-level multiple choice questions " ++ [nl]
  ++ lit "based on the skill: " ++ skill ++ lit "." ++ [nl]
  ++ [nl]
  ++ lit "Use this context:" ++ [nl]
  ++ content ++ [nl]
  ++ [nl]
  ++ text_of ["Format Strictly:"; "Q1. <question>"; "A) <option>"; "B) <option>";
              "C) <option>"; "D) <option>"; "Answer: <A/B/C/D>"; ""]%string.

Definition generate_quiz (self : QuizGenerator) (skill level : str)
  (num_questions : Z) : M str :=
  content <- get_content_for_skill (db self) skill ;;
  match content with
  | [] => ret (lit "No content found for skill: " ++ skill)
  | _ =>
      let prompt := _build_prompt skill level num_questions content in
      print (lit "Generating quiz...") ;;;
      response <- generate_content prompt ;;
      ret (strip response)
  end.

(** The loop that saves the parsed questions. *)
Fixpoint save_all (db : Database) (skill level : str) (qs : list Question)
  : M unit :=
  match qs with
  | [] => ret tt
  | q :: rest =>
      save_question db (question_no q) skill level q ;;;
      save_all db skill level rest
  end.

Definition main : M unit :=
  print ([nl] ++ lit "=== LLM QUIZ GENERATOR ===" ++ [nl]) ;;;
  quiz_gen <- QuizGenerator_init ;;
  let db := db quiz_gen in
  topics <- get_all_topics db ;;
  match topics with
  | [] => print (lit "No topics found in database.")
  | _ =>
      print (lit "Available Skills:") ;;;
      fold_right (fun t k => print (lit " - " ++ t) ;;; k) (ret tt) topics ;;;
      skill_line <- input ([nl] ++ lit "Enter skill: ") ;;
      let skill := strip skill_line in
      level_line <- input (lit "Enter level (Beginner / Intermediate / Expert): ") ;;
      let level := strip level_line in
      num_line <- input (lit "Enter number of questions: ") ;;
      match int_of_str (strip num_line) with
      | None => raise ValueError
      | Some num_q =>
          quiz_output <- generate_quiz quiz_gen skill level num_q ;;
          print ([nl] ++ lit "=== GENERATED QUIZ ===" ++ [nl]) ;;;
          print quiz_output ;;;
          parsed_questions <- lift (parse_quiz_output quiz_output) ;;
          match parsed_questions with
          | [] => print (lit "Parsing failed. Check Gemini output format.")
          | _ =>
              save_all db skill level parsed_questions ;;;
              print ([nl] ++ str_of_int (Z.of_nat (length parsed_questions))
                     ++ lit " questions saved to database successfully!")
          end
      end
  end.

End QGtestrun3.

(** ** QGtestrun4.py: unique questions per resume, quiz and score *)

Module QGtestrun4.

(** [Database.__init__]: here a failed connection is not caught. *)
Definition Database_init : M unit :=
  fun w => if mysql_up w then (Ok tt, w) else (Raise MySQLError, w).

Definition get_all_topics : M (list str) :=
  fun w => (Ok (select_topics w), w).

Definition get_content_for_skill (skill : str) : M str :=
  fun w => (Ok (join_space (select_content skill w)), w).

Definition question_used_before (resume_id : Z) (question : str) : M bool :=
  fun w => (Ok (select_history resume_id question w), w).

Definition store_used_question (resume_id : Z) (question : str) : M unit :=
  insert_history resume_id question.

(** What [_parse_questions] builds for one block. *)
Record Candidate : Type := mkCandidate {
  c_question : str;
  c_A : str;
  c_B : str;
  c_C : str;
  c_D : str;
  c_correct : str
}.

(** The same dict once [generate_unique_questions] has added the keys
    [question_no], [skill] and [mode] to it. *)
Record Question : Type := mkQuestion {
  question : str;
  A : str;
  B : str;
  C : str;
  D : str;
  correct : str;
  question_no : Z;
  skill : str;
  mode : str
}.

Definition store_question (q : Question) : M unit :=
  insert_question
    (mkQuestionRow (question_no q) (skill q) (mode q) (question q)
       (A q) (B q) (C q) (D q) (correct q)).

Definition store_score (resume_id : Z) (skill mode : str) (total correct : Z)
  : M unit :=
  insert_attempt (mkAttemptRow resume_id skill mode total correct).

Definition _build_prompt (skill level : str) (num_questions : Z) (content : str)
  : str :=
  [nl] ++ lit "Generate " ++ str_of_int num_questions ++ lit " " ++ level
  ++ lit "-level MCQs for skill " ++ skill ++ lit "." ++ [nl]
  ++ lit "Use this context: " ++ content ++ [nl]
  ++ [nl]
  ++ text_of ["Format:"; "Q1. <question>"; "A) <option>"; "B) <option>";
              "C) <option>"; "D) <option>"; "Answer: <letter>"; ""]%string.

(** [Q\d+\.] *)
Definition marker : regex := chars "Q" ++ [mkAtom Digit Plus false] ++ chars ".".

(** The body of the loop of [_parse_questions], for one block. *)
Definition parse_block (block : str) : result Candidate :=
  let lines := split nl (strip block) in
  l0 <~ index lines 0 ;;
  let q_text := strip l0 in
  l1 <~ index lines 1 ;;
  a <~ index (split_max ")" 1 l1) 1 ;;
  l2 <~ index lines 2 ;;
  b <~ index (split_max ")" 1 l2) 1 ;;
  l3 <~ index lines 3 ;;
  c <~ index (split_max ")" 1 l3) 1 ;;
  l4 <~ index lines 4 ;;
  d <~ index (split_max ")" 1 l4) 1 ;;
  l5 <~ index lines 5 ;;
  ans <~ index (split ":" l5) 1 ;;
  Ok (mkCandidate q_text (strip a) (strip b) (strip c) (strip d) (strip ans)).

Definition _parse_questions (text : str) : result (list Candidate) :=
  let blocks := re_split marker text in
  traverse parse_block (tl blocks).

(** What [generate_unique_questions] returns: the list [final_qs], or the
    text of its message. *)
Inductive Returned : Type :=
| Questions (final_qs : list Question)
| Message (s : str).

(** The three assignments that complete the dict of an accepted candidate. *)
Definition accept (q : Candidate) (q_no : Z) (skill level : str) : Question :=
  mkQuestion (c_question q) (c_A q) (c_B q) (c_C q) (c_D q) (c_correct q)
    q_no skill level.

(** The loop over [parsed], with its two variables [final_qs] and [q_no];
    it ends on [break] or at the end of the list, with [final_qs]. *)
Fixpoint select_loop (resume_id : Z) (skill level : str) (num_questions : Z)
  (parsed : list Candidate) (final_qs : list Question) (q_no : Z)
  : M (list Question) :=
  match parsed with
  | [] => ret final_qs
  | q :: rest =>
      if Z.of_nat (length final_qs) =? num_questions then ret final_qs
      else
        used <- question_used_before resume_id (c_question q) ;;
        if negb used then
          let q' := accept q q_no skill level in
          store_used_question resume_id (question q') ;;;
          store_question q' ;;;
          select_loop resume_id skill level num_questions rest
            (final_qs ++ [q']) (q_no + 1)
        else
          select_loop resume_id skill level num_questions rest final_qs q_no
  end%Z.

Definition not_enough : str :=
  lit "Not enough unique questions found. Try again.".

Definition generate_unique_questions (resume_id : Z) (skill level : str)
  (num_questions : Z) : M Returned :=
  content <- get_content_for_skill skill ;;
  let prompt := _build_prompt skill level (num_questions * 2) content in
  response <- generate_content prompt ;;
  parsed <- lift (_parse_questions response) ;;
  final_qs <- select_loop resume_id skill level num_questions parsed [] 1 ;;
  if (Z.of_nat (length final_qs) <? num_questions)%Z
  then ret (Message not_enough)
  else ret (Questions final_qs).

(** The quiz loop of [main] over a list of questions: each question is
    shown, one answer is read, and [correct_count] goes up by one when the
    answer, stripped and put in upper case, is the stored letter. *)
Fixpoint ask (qs : list Question) (correct_count : Z) : M Z :=
  match qs with
  | [] => ret correct_count
  | q :: rest =>
      print (lit "Q" ++ str_of_int (question_no q) ++ lit ". " ++ question q) ;;;
      print (lit "A) " ++ A q) ;;;
      print (lit "B) " ++ B q) ;;;
      print (lit "C) " ++ C q) ;;;
      print (lit "D) " ++ D q) ;;;
      line <- input (lit "Your answer: ") ;;
      let ans := upper (strip line) in
      ask rest (if str_eqb ans (correct q) then correct_count + 1 else correct_count)%Z
  end.

(** [for q in qs:] followed by a use of [q['question_no']]: on a list it
    runs [body]; on a text, [q] is a text of one character and indexing it
    with a key raises [TypeError] at the first character. *)
Definition for_questions {R} (qs : Returned) (body : list Question -> M R)
  (none : R) : M R :=
  match qs with
  | Questions l => body l
  | Message [] => ret none
  | Message (_ :: _) => raise TypeError
  end.

(** The loop that prints the correct answers. *)
Fixpoint show_answers (qs : list Question) : M unit :=
  match qs with
  | [] => ret tt
  | q :: rest =>
      print (lit "Q" ++ str_of_int (question_no q) ++ lit ": Correct Option = "
             ++ correct q) ;;;
      show_answers rest
  end.

(** [main] from the call of [generate_unique_questions] on, the four
    answers typed at the start being given. *)
Definition session (resume_id : Z) (skill level : str) (num_q : Z) : M unit :=
  qs <- generate_unique_questions resume_id skill level num_q ;;
  print ([nl] ++ lit "=== QUIZ ===" ++ [nl]) ;;;
  correct_count <- for_questions qs (fun l => ask l 0%Z) 0%Z ;;
  store_score resume_id skill level num_q correct_count ;;;
  print ([nl] ++ lit "=== RESULT ===") ;;;
  print (lit "Score: " ++ str_of_int correct_count ++ lit " / " ++ str_of_int num_q) ;;;
  print ([nl] ++ lit "=== CORRECT ANSWERS ===") ;;;
  for_questions qs show_answers tt.

Definition read_int (prompt : str) : M Z :=
  line <- input prompt ;;
  match int_of_str (strip line) with
  | Some n => ret n
  | None => raise ValueError
  end.

Definition main : M unit :=
  print ([nl] ++ lit "=== LLM QUIZ GENERATOR ===" ++ [nl]) ;;;
  Database_init ;;;
  topics <- get_all_topics ;;
  print ([nl] ++ lit "Skills Available:") ;;;
  fold_right (fun s k => print (lit " - " ++ s) ;;; k) (ret tt) topics ;;;
  skill_line <- input ([nl] ++ lit "Enter skill: ") ;;
  level_line <- input (lit "Enter level (Beginner / Intermediate / Expert): ") ;;
  resume_id <- read_int (lit "Enter Resume ID: ") ;;
  num_q <- read_int (lit "How many questions? ") ;;
  session resume_id (strip skill_line) (strip level_line) num_q.

End QGtestrun4.

(** * The vocabulary of the statements *)

(** ** Texts *)

Module Texts.

Definition blank (w : str) : Prop := forallb isspace w = true.

(** The number that a run of decimal digits writes. *)
Definition decimal (d : str) : Z :=
  fold_left (fun acc c => (acc * 10 + digit_val c)%Z) d 0%Z.

End Texts.

(** ** What a match of a pattern is *)

Module Matches.
Import Texts.

(** The texts that one atom may take. *)
Definition takes (a : atom) (t : str) : Prop :=
  forallb (cls_match (a_cls a)) t = true /\
  match a_quant a with
  | One => length t = 1
  | Plus => t <> []
  | Star | LazyStar => True
  end.

(** [matched r u gs]: the text [u] is cut in pieces, one per atom of [r], each
    taken by its atom, and [gs] are the pieces of the atoms in a group. *)
Fixpoint matched (r : regex) (u : str) (gs : list str) : Prop :=
  match r with
  | [] => u = [] /\ gs = []
  | a :: r' =>
      exists t u', u = t ++ u' /\ takes a t /\
        if a_group a
        then exists gs', gs = t :: gs' /\ matched r' u' gs'
        else matched r' u' gs
  end.

(** The text of one question, as the pattern reads it: the marker with its
    digits, the stem, the four options and the answer letter, with blanks
    around each field. *)
Definition question_text (u digits stem a b c d : str) (letter : ascii) : Prop :=
  exists w1 w2 w3 w4 w5 w6 w7 w8 w9 w10 w11,
    u = lit "Q" ++ digits ++ lit "." ++ w1 ++ stem ++ w2
        ++ lit "A)" ++ w3 ++ a ++ w4
        ++ lit "B)" ++ w5 ++ b ++ w6
        ++ lit "C)" ++ w7 ++ c ++ w8
        ++ lit "D)" ++ w9 ++ d ++ w10
        ++ lit "Answer:" ++ w11 ++ [letter] /\
    Forall blank [w1; w2; w3; w4; w5; w6; w7; w8; w9; w10; w11] /\
    digits <> [] /\ forallb isdigit digits = true /\
    In letter ["A"; "B"; "C"; "D"]%char.

End Matches.

(** ** The uniqueness filter *)

Module Filter.
Import QGtestrun4.

Section Request.

Variables (resume_id : Z) (skill level : str) (num_questions : Z).

(** The rows that the acceptance of [qs] writes. *)
Definition history_rows (qs : list Question) : list (Z * str) :=
  map (fun q => (resume_id, question q)) qs.

Definition question_rows (qs : list Question) : list QuestionRow :=
  map (fun q => mkQuestionRow (question_no q) (QGtestrun4.skill q) (mode q)
                  (question q) (A q) (B q) (C q) (D q) (correct q)) qs.

(** The world once the questions [qs] have been accepted: two tables have
    grown, nothing else has changed. *)
Definition persisted (w : World) (qs : list Question) : World :=
  mkWorld (gemini_api_key w) (mysql_up w) (gemini w) (prompts_sent w)
    (skill_set w) (resume_history w ++ history_rows qs)
    (quiz_questions w ++ question_rows qs) (quiz_attempts w) (stdin w) (stdout w).

(** The list that the loop adds to [final_qs], as a function of the
    history, of the number of questions accepted so far and of the next
    display number. *)
Fixpoint picked (rows : list (Z * str)) (count : nat) (q_no : Z)
  (parsed : list Candidate) : list Question :=
  match parsed with
  | [] => []
  | c :: rest =>
      if (Z.of_nat count =? num_questions)%Z then []
      else if history_has rows resume_id (c_question c)
      then picked rows count q_no rest
      else
        let q := accept c q_no skill level in
        q :: picked (rows ++ [(resume_id, question q)]) (S count) (q_no + 1) rest
  end.

(** The prompt that [generate_unique_questions] sends in the world [w]. *)
Definition prompt_of (w : World) : str :=
  _build_prompt skill level (num_questions * 2) (join_space (select_content skill w)).

(** The world once the prompt is sent. *)
Definition asked (w : World) : World :=
  set_prompts_sent w (prompts_sent w ++ [prompt_of w]).

End Request.

(** Their order is the order of the candidates. *)
Inductive subseq {T : Type} : list T -> list T -> Prop :=
| subseq_nil l : subseq [] l
| subseq_skip x l1 l2 : subseq l1 l2 -> subseq l1 (x :: l2)
| subseq_take x l1 l2 : subseq l1 l2 -> subseq (x :: l1) (x :: l2).

Definition candidate_of (q : Question) : Candidate :=
  mkCandidate (question q) (A q) (B q) (C q) (D q) (correct q).

End Filter.

(** ** The score *)

Module Score.
Import QGtestrun4.

(** Is the line typed for [q] counted as correct: it is stripped and put in
    upper case, then compared with the stored letter. *)
Definition counted (q : Question) (line : str) : bool :=
  str_eqb (upper (strip line)) (correct q).

(** The number of questions of [qs] whose line, in [lines], is counted. *)
Fixpoint tally (qs : list Question) (lines : list str) : Z :=
  match qs, lines with
  | q :: qs', line :: lines' =>
      ((if counted q line then 1 else 0) + tally qs' lines')%Z
  | _, _ => 0%Z
  end.

End Score.

(** ** The rows saved by QGtestrun3 *)

Module Saved.
Import QGtestrun3.

(** The rows that saving [qs] writes: the number of each row is the number
    of its question. *)
Definition saved_rows (skill level : str) (qs : list Question) : list QuestionRow :=
  map (fun q => mkQuestionRow (question_no q) skill level (question q)
                  (A q) (B q) (C q) (D q) (answer q)) qs.

End Saved.

(** ** Texts and worlds of the runs shown below *)

Module Runs.

Definition block (marker stem answer : string) : list string :=
  [marker ++ " " ++ stem; "A) one"; "B) two"; "C) three"; "D) four";
   "Answer: " ++ answer]%string.

Definition five_blocks : str :=
  text_of (block "Q1." "S1" "A" ++ block "Q2." "S2" "B" ++ block "Q3." "S1" "C"
           ++ block "Q4." "S3" "D" ++ block "Q5." "S4" "A").

Definition algorithms : str := lit "Algorithms".
Definition beginner : str := lit "Beginner".

(** A world whose model answers [five_blocks] to every prompt, with nothing
    stored yet, and two answers ready to be typed. *)
Definition fresh_world : World :=
  mkWorld (Some (lit "key")) true (fun _ => five_blocks) []
    [(algorithms, lit "Binary search operates on sorted arrays")]
    [] [] [] [lit "a"; lit " b "] [].

(** The same with S1 already shown to resume 7. *)
Definition seen_S1_world : World :=
  set_resume_history fresh_world [(7%Z, lit "S1")].

(** Three questions that the model numbers 7, 7 and 3. *)
Definition numbered_7_7_3 : str :=
  text_of (block "Q7." "S1" "A"
           ++ block "Q7." "S2" "B"
           ++ block "Q3." "S3" "C").

Definition world_7_7_3 : World :=
  mkWorld (Some (lit "key")) true (fun _ => numbered_7_7_3) []
    [(lit "SQL", lit "Joins")] [] [] []
    [lit "SQL"; lit "Expert"; lit "3"] [].

(** A response cut short: one whole question, then a second one that stops
    after its second option. *)
Definition cut_short : str :=
  text_of (block "Q1." "S1" "A" ++ ["Q2. S2"; "A) one"; "B) two"]%string).

Definition world_of (response : str) : World :=
  mkWorld (Some (lit "key")) true (fun _ => response) []
    [(algorithms, lit "Binary search operates on sorted arrays")]
    [] [] [] [lit "a"; lit "b"] [].

(** A question whose stem holds a line of code. *)
Definition stem_on_two_lines : str :=
  text_of ["Q1. What does this print?"; "print(len(x))"; "A) 1"; "B) 2"; "C) 3";
           "D) error: x is undefined"; "Answer: A"]%string.

(** A question whose answer line repeats the option. *)
Definition answer_with_option : str :=
  text_of ["Q1. S1"; "A) one"; "B) two"; "C) three"; "D) four"; "Answer: B) two"]%string.

End Runs.

(** ** Shapes of texts *)

Module Shapes.

(** A text with no blank at its start and none at its end. *)
Definition trimmed (s : str) : Prop :=
  match s with [] => True | c :: _ => isspace c = false end /\
  match rev s with [] => True | c :: _ => isspace c = false end.

(** A text that holds no line feed. *)
Definition one_line (s : str) : Prop := ~ In nl s.

(** A lower-case letter. *)
Definition islower (c : ascii) : bool :=
  let n := nat_of_ascii c in (97 <=? n) && (n <=? 122).

End Shapes.

(** * Facts *)

(** ** Texts and worlds *)

Lemma str_eqb_eq a b : str_eqb a b = true <-> a = b.
Proof.
  unfold str_eqb. destruct (list_eq_dec ascii_dec a b); split; congruence.
Qed.

Lemma str_eqb_refl a : str_eqb a a = true.
Proof. apply str_eqb_eq. reflexivity. Qed.

Lemma str_eqb_neq a b : str_eqb a b = false <-> a <> b.
Proof.
  unfold str_eqb. destruct (list_eq_dec ascii_dec a b); split; congruence.
Qed.

Lemma history_has_app rows more rid s :
  history_has (rows ++ more) rid s = history_has rows rid s || history_has more rid s.
Proof. unfold history_has. apply existsb_app. Qed.

Lemma history_has_In rows rid s :
  history_has rows rid s = true <-> In (rid, s) rows.
Proof.
  unfold history_has. rewrite existsb_exists. split.
  - intros [[r q] [Hin Heq]]. simpl in Heq.
    apply andb_true_iff in Heq as [H1 H2].
    apply Z.eqb_eq in H1. apply str_eqb_eq in H2. subst. exact Hin.
  - intros Hin. exists (rid, s). split; [exact Hin|]. simpl.
    rewrite Z.eqb_refl, str_eqb_refl. reflexivity.
Qed.


Lemma set_io_same w : set_io w (stdin w) (stdout w) = w.
Proof. destruct w. reflexivity. Qed.

Lemma set_io_twice w i o i' o' : set_io (set_io w i o) i' o' = set_io w i' o'.
Proof. reflexivity. Qed.

Lemma stdin_set_io w i o : stdin (set_io w i o) = i.
Proof. reflexivity. Qed.

Lemma stdout_set_io w i o : stdout (set_io w i o) = o.
Proof. reflexivity. Qed.

Lemma bind_run {X Y} (m : M X) (f : X -> M Y) w x w' :
  m w = (Ok x, w') -> bind m f w = f x w'.
Proof. intros H. unfold bind. rewrite H. reflexivity. Qed.

Lemma bind_print {Y} s (f : unit -> M Y) w :
  bind (print s) f w = f tt (set_io w (stdin w) (stdout w ++ [s])).
Proof. reflexivity. Qed.

Lemma bind_input {Y} prompt (f : str -> M Y) w line rest :
  stdin w = line :: rest ->
  bind (input prompt) f w = f line (set_io w rest (stdout w ++ [prompt])).
Proof. intros H. unfold bind, input. rewrite H. reflexivity. Qed.

Module TextFacts.
Import Texts.

Lemma lstrip_split s :
  exists lead, s = lead ++ lstrip s /\ blank lead.
Proof.
  induction s as [| c s (lead & Hs & Hlead)]; simpl.
  - exists []. split; reflexivity.
  - destruct (isspace c) eqn:Hc.
    + exists (c :: lead). split; [simpl; congruence|].
      unfold blank. simpl. rewrite Hc. exact Hlead.
    + exists []. split; reflexivity.
Qed.

Lemma lstrip_head s c s' : lstrip s = c :: s' -> isspace c = false.
Proof.
  induction s as [| x s IH]; simpl; [discriminate|].
  destruct (isspace x) eqn:Hx; [exact IH|].
  intros H. injection H as <- _. exact Hx.
Qed.

Lemma blank_rev w : blank w -> blank (rev w).
Proof.
  unfold blank. rewrite !forallb_forall. intros H c Hc.
  apply H, in_rev. exact Hc.
Qed.

Lemma rstrip_split s :
  exists trail, s = rstrip s ++ trail /\ blank trail.
Proof.
  unfold rstrip. destruct (lstrip_split (rev s)) as (lead & Hs & Hlead).
  exists (rev lead). split; [|apply blank_rev; exact Hlead].
  rewrite <- rev_app_distr, <- Hs, rev_involutive. reflexivity.
Qed.

(** [strip] removes blanks at both ends and nothing else: what is inside,
    line feeds included, is kept as it is. *)
Lemma strip_split s :
  exists lead trail, s = lead ++ strip s ++ trail /\ blank lead /\ blank trail.
Proof.
  destruct (lstrip_split s) as (lead & Hs & Hlead).
  destruct (rstrip_split (lstrip s)) as (trail & Hr & Htrail).
  exists lead, trail. unfold strip. rewrite <- Hr. auto.
Qed.

Lemma strip_last s s' c : strip s = s' ++ [c] -> isspace c = false.
Proof.
  unfold strip, rstrip. intros H.
  apply (f_equal (@rev ascii)) in H.
  rewrite rev_involutive, rev_app_distr in H. simpl in H.
  eapply lstrip_head. exact H.
Qed.

Lemma strip_first s c s' : strip s = c :: s' -> isspace c = false.
Proof.
  intros H. destruct (rstrip_split (lstrip s)) as (trail & Hr & _).
  fold (strip s) in Hr. rewrite H in Hr. simpl in Hr.
  eapply lstrip_head. exact Hr.
Qed.

Lemma isdigit_not_space c : isdigit c = true -> isspace c = false.
Proof.
  unfold isdigit, isspace. cbv zeta. intros H.
  apply andb_true_iff in H as [H1 H2].
  apply Nat.leb_le in H1. apply Nat.leb_le in H2.
  apply orb_false_iff. split; apply andb_false_iff.
  - right. apply Nat.leb_gt. lia.
  - right. apply Nat.leb_gt. lia.
Qed.

Lemma lstrip_digits d : forallb isdigit d = true -> lstrip d = d.
Proof.
  destruct d as [| c d]; simpl; [reflexivity|].
  intros H. apply andb_true_iff in H as [Hc _].
  rewrite (isdigit_not_space c Hc). reflexivity.
Qed.

Lemma strip_digits d : forallb isdigit d = true -> strip d = d.
Proof.
  intros H. unfold strip, rstrip. rewrite (lstrip_digits d H).
  rewrite lstrip_digits; [apply rev_involutive|].
  rewrite forallb_forall in *. intros c Hc. apply H, in_rev. exact Hc.
Qed.

Lemma int_digits_digits d : forall acc after,
  forallb isdigit d = true -> (d <> [] \/ after = true) ->
  int_digits acc after d
    = Some (fold_left (fun acc c => (acc * 10 + digit_val c)%Z) d acc).
Proof.
  induction d as [| c d IH]; intros acc after Hd Hne; simpl.
  - destruct Hne as [Hne | ->]; [contradiction | reflexivity].
  - simpl in Hd. apply andb_true_iff in Hd as [Hc Hd]. rewrite Hc.
    apply IH; auto.
Qed.

(** [int] of a run of digits is its decimal value: it never fails. *)
Lemma int_of_digits d :
  d <> [] -> forallb isdigit d = true -> int_of_str d = Some (decimal d).
Proof.
  intros Hne Hd. unfold int_of_str. rewrite (strip_digits d Hd).
  destruct d as [| c d]; [contradiction|].
  assert (Hc : isdigit c = true).
  { simpl in Hd. apply andb_true_iff in Hd. tauto. }
  assert (Hgo : int_digits 0 false (c :: d) = Some (decimal (c :: d))).
  { apply int_digits_digits; [exact Hd | left; discriminate]. }
  destruct c as [[] [] [] [] [] [] [] []]; try exact Hgo; discriminate Hc.
Qed.

Lemma range_A_D c :
  cls_match (Range "A" "D") c = true ->
  c = "A"%char \/ c = "B"%char \/ c = "C"%char \/ c = "D"%char.
Proof.
  destruct c as [[] [] [] [] [] [] [] []]; simpl; intros H;
    try discriminate H; auto.
Qed.

End TextFacts.

Module RegexFacts.
Import Matches.

Lemma rep_sound (R : Type) greedy p (k : str -> str -> option R) s :
  forall acc x,
    rep greedy p k acc s = Some x ->
    exists t rest,
      s = t ++ rest /\ forallb p t = true /\ k (acc ++ t) rest = Some x.
Proof.
  induction s as [| c s IH]; intros acc x H; simpl in H.
  - exists [], []. rewrite (app_nil_r acc). auto.
  - assert (Hstop : k acc (c :: s) = Some x ->
      exists t rest, c :: s = t ++ rest /\ forallb p t = true
                     /\ k (acc ++ t) rest = Some x).
    { intros Hk. exists [], (c :: s). rewrite app_nil_r. auto. }
    assert (Hmore : rep greedy p k (acc ++ [c]) s = Some x -> p c = true ->
      exists t rest, c :: s = t ++ rest /\ forallb p t = true
                     /\ k (acc ++ t) rest = Some x).
    { intros Hr Hc. apply IH in Hr as (t & rest & -> & Ht & Hk).
      exists (c :: t), rest. simpl. rewrite Hc, Ht.
      rewrite <- app_assoc in Hk. auto. }
    destruct (p c) eqn:Hc; [|auto].
    destruct greedy.
    + destruct (rep true p k (acc ++ [c]) s) eqn:Hr; [|auto].
      injection H as ->. auto.
    + destruct (k acc (c :: s)) eqn:Hk; [|auto].
      injection H as ->. auto.
Qed.

(** A successful match takes a text that the pattern describes. *)
Lemma match_here_sound r : forall caps s out rest,
  match_here r caps s = Some (out, rest) ->
  exists u gs, s = u ++ rest /\ matched r u gs /\ out = rev caps ++ gs.
Proof.
  induction r as [| a r IH]; intros caps s out rest H; simpl in H.
  - injection H as <- <-. exists [], []. rewrite app_nil_r. simpl. auto.
  - assert (Hk : forall t s',
      forallb (cls_match (a_cls a)) t = true ->
      match a_quant a with
      | One => length t = 1 | Plus => t <> [] | _ => True end ->
      match_here r (if a_group a then t :: caps else caps) s' = Some (out, rest) ->
      exists u gs, t ++ s' = u ++ rest /\ matched (a :: r) u gs
                   /\ out = rev caps ++ gs).
    { intros t s' Ht Hq Hm. apply IH in Hm as (u & gs & -> & Hu & ->).
      destruct (a_group a) eqn:Hg.
      - exists (t ++ u), (t :: gs). rewrite app_assoc. split; [reflexivity|].
        split; [|simpl; rewrite <- app_assoc; reflexivity].
        simpl. exists t, u. rewrite Hg. unfold takes. eauto 7.
      - exists (t ++ u), gs. rewrite app_assoc. split; [reflexivity|].
        split; [|reflexivity].
        simpl. exists t, u. rewrite Hg. unfold takes. auto. }
    destruct (a_quant a) eqn:Hq.
    + destruct s as [| c s]; [discriminate|].
      destruct (cls_match (a_cls a) c) eqn:Hc; [|discriminate].
      apply (Hk [c] s); simpl; auto. rewrite Hc. reflexivity.
    + destruct s as [| c s]; [discriminate|].
      destruct (cls_match (a_cls a) c) eqn:Hc; [|discriminate].
      apply rep_sound in H as (t & s' & -> & Ht & H).
      apply (Hk (c :: t) s'); simpl; auto.
      * rewrite Hc, Ht. reflexivity.
      * discriminate.
    + apply rep_sound in H as (t & s' & -> & Ht & H).
      apply (Hk t s'); auto.
    + apply rep_sound in H as (t & s' & -> & Ht & H).
      apply (Hk t s'); auto.
Qed.

(** Every match that the scan reports is a piece of the text that the
    pattern describes. *)
Lemma scan_sound r s : forall skip gap g caps,
  In (g, caps) (fst (scan r skip gap s)) ->
  exists pre u post, s = pre ++ u ++ post /\ matched r u caps.
Proof.
  induction s as [| c s IH]; intros skip gap g caps Hin; cbn [scan] in Hin.
  - contradiction.
  - assert (Hlater : forall skip' gap',
      In (g, caps) (fst (scan r skip' gap' s)) ->
      exists pre u post, c :: s = pre ++ u ++ post /\ matched r u caps).
    { intros skip' gap' H. apply IH in H as (pre & u & post & -> & Hu).
      exists (c :: pre), u, post. auto. }
    destruct skip as [| n]; [|eauto].
    destruct (match_here r [] (c :: s)) as [[caps' rest] |] eqn:Hm; [|eauto].
    assert (Hhead : (gap, caps') = (g, caps) ->
      exists pre u post, c :: s = pre ++ u ++ post /\ matched r u caps).
    { intros Heq. injection Heq as _ <-.
      apply match_here_sound in Hm as (u & gs & Hs & Hu & ->).
      exists [], u, rest. auto. }
    destruct (length (c :: s) - length rest) as [| n'].
    + destruct (scan r 0 [c] s) as [ms last] eqn:Hscan.
      destruct Hin as [Heq | Hin]; [auto|].
      apply (Hlater 0 [c]). rewrite Hscan. exact Hin.
    + destruct (scan r n' [] s) as [ms last] eqn:Hscan.
      destruct Hin as [Heq | Hin]; [auto|].
      apply (Hlater n' []). rewrite Hscan. exact Hin.
Qed.

Lemma findall_sound r s caps :
  In caps (findall r s) ->
  exists pre u post, s = pre ++ u ++ post /\ matched r u caps.
Proof.
  unfold findall. intros Hin. apply in_map_iff in Hin as [[g caps'] [<- Hin]].
  eapply scan_sound. exact Hin.
Qed.

End RegexFacts.

Module RegexParser.
Import QGtestrun3 Texts Matches Saved Runs RegexFacts TextFacts.

Lemma matched_chars s r u gs :
  matched (chars s ++ r) u gs ->
  exists u', u = lit s ++ u' /\ matched r u' gs.
Proof.
  unfold chars. revert u. induction (lit s) as [| c l IH]; intros u H.
  - exists u. auto.
  - simpl in H. destruct H as (t & u' & -> & [Ht Hlen] & H).
    apply IH in H as (u'' & -> & H).
    destruct t as [| x [| y t]]; try discriminate Hlen.
    simpl in Ht. rewrite andb_true_r in Ht. apply Ascii.eqb_eq in Ht. subst x.
    exists u''. auto.
Qed.

Lemma matched_spaces r u gs :
  matched (spaces :: r) u gs ->
  exists w u', u = w ++ u' /\ blank w /\ matched r u' gs.
Proof.
  simpl. intros (t & u' & -> & [Ht _] & H). exists t, u'. auto.
Qed.

Lemma matched_field r u gs :
  matched (field :: r) u gs ->
  exists t u' gs', u = t ++ u' /\ gs = t :: gs' /\ matched r u' gs'.
Proof.
  simpl. intros (t & u' & -> & _ & gs' & -> & H). exists t, u', gs'. auto.
Qed.

Lemma matched_group k q r u gs :
  matched (mkAtom k q true :: r) u gs ->
  exists t u' gs',
    u = t ++ u' /\ gs = t :: gs' /\ takes (mkAtom k q true) t /\ matched r u' gs'.
Proof.
  cbn [matched a_group]. intros (t & u' & -> & Ht & gs' & -> & H).
  exists t, u', gs'. auto.
Qed.

(** A field between blanks, then the characters that end it. *)
Lemma matched_field_then s r u gs :
  matched ([spaces; field; spaces] ++ chars s ++ r) u gs ->
  exists w t w' u' gs',
    u = w ++ t ++ w' ++ lit s ++ u' /\ gs = t :: gs' /\
    blank w /\ blank w' /\ matched r u' gs'.
Proof.
  cbn [app]. intros H.
  apply matched_spaces in H as (w & u1 & -> & Hw & H).
  apply matched_field in H as (t & u2 & gs' & -> & -> & H).
  apply matched_spaces in H as (w' & u3 & -> & Hw' & H).
  apply matched_chars in H as (u' & -> & H).
  exists w, t, w', u', gs'. auto.
Qed.

(** What the pattern of [parse_quiz_output] matches, and what it captures. *)
Lemma matched_pattern u gs :
  matched pattern u gs ->
  exists digits stem a b c d letter,
    gs = [digits; stem; a; b; c; d; [letter]] /\
    question_text u digits stem a b c d letter.
Proof.
  unfold pattern. intros H.
  apply matched_chars in H as (u0 & -> & H).
  cbn [app] in H.
  apply matched_group in H as (digits & u1 & gs0 & -> & -> & [Hdigits Hne] & H).
  apply matched_chars in H as (u2 & -> & H).
  apply matched_field_then in H as (w1 & stem & w2 & u3 & gs1 & -> & -> & ? & ? & H).
  apply matched_field_then in H as (w3 & a & w4 & u4 & gs2 & -> & -> & ? & ? & H).
  apply matched_field_then in H as (w5 & b & w6 & u5 & gs3 & -> & -> & ? & ? & H).
  apply matched_field_then in H as (w7 & c & w8 & u6 & gs4 & -> & -> & ? & ? & H).
  apply matched_field_then in H as (w9 & d & w10 & u7 & gs5 & -> & -> & ? & ? & H).
  cbn [app] in H.
  apply matched_spaces in H as (w11 & u8 & -> & ? & H).
  apply matched_group in H as (t & u9 & gs6 & -> & -> & [Ht Hlen] & H).
  cbn [matched] in H. destruct H as [-> ->].
  cbn [a_cls a_quant] in Ht, Hlen, Hdigits, Hne.
  destruct t as [| letter [| y t]]; try discriminate Hlen.
  cbn [forallb] in Ht. rewrite andb_true_r in Ht.
  exists digits, stem, a, b, c, d, letter. split; [reflexivity|].
  exists w1, w2, w3, w4, w5, w6, w7, w8, w9, w10, w11.
  split; [rewrite app_nil_r; reflexivity|].
  split; [repeat constructor; assumption|].
  split; [exact Hne|]. split; [exact Hdigits|].
  apply range_A_D in Ht. destruct Ht as [-> | [-> | [-> | ->]]]; simpl; auto.
Qed.

Lemma traverse_all_ok {X Y} (f : X -> result Y) l :
  (forall x, In x l -> exists y, f x = Ok y) ->
  exists ys, traverse f l = Ok ys /\
             forall y, In y ys -> exists x, In x l /\ f x = Ok y.
Proof.
  induction l as [| x l IH]; intros H; simpl.
  - exists []. split; [reflexivity | contradiction].
  - destruct (H x (or_introl eq_refl)) as [y Hy]. rewrite Hy. simpl.
    destruct IH as (ys & Hys & Hin); [intros; apply H; right; assumption|].
    rewrite Hys. simpl. exists (y :: ys). split; [reflexivity|].
    intros y' [<- | Hy']; [exists x; auto|].
    destruct (Hin y' Hy') as (x' & Hx' & Hfx'). exists x'. auto.
Qed.

Lemma strip_letter letter :
  In letter ["A"; "B"; "C"; "D"]%char -> strip [letter] = [letter].
Proof.
  simpl. intros [<- | [<- | [<- | [<- | []]]]]; reflexivity.
Qed.

(** The parser with the regular expression never raises, whatever the text;
    each record it builds comes from a piece of the text of the expected
    shape: its number is the value of the digits of the marker, its fields
    are the stripped texts between the markers, its answer is the letter. *)
Lemma parse_quiz_output_sound text :
  exists qs,
    parse_quiz_output text = Ok qs /\
    forall q, In q qs ->
      exists pre u post digits stem a b c d letter,
        text = pre ++ u ++ post /\
        question_text u digits stem a b c d letter /\
        q = mkQuestion (decimal digits) (strip stem) (strip a) (strip b)
              (strip c) (strip d) [letter].
Proof.
  unfold parse_quiz_output. cbv zeta.
  assert (Hone : forall m, In m (findall pattern text) ->
    exists pre u post digits stem a b c d letter,
      text = pre ++ u ++ post /\
      question_text u digits stem a b c d letter /\
      question_of_match m
        = Ok (mkQuestion (decimal digits) (strip stem) (strip a) (strip b)
                (strip c) (strip d) [letter])).
  { intros m Hm. apply findall_sound in Hm as (pre & u & post & -> & Hu).
    apply matched_pattern in Hu as (digits & stem & a & b & c & d & letter & -> & Hq).
    exists pre, u, post, digits, stem, a, b, c, d, letter.
    split; [reflexivity|]. split; [exact Hq|].
    destruct Hq as (w1 & w2 & w3 & w4 & w5 & w6 & w7 & w8 & w9 & w10 & w11
                    & _ & _ & Hne & Hdigits & Hletter).
    unfold question_of_match.
    rewrite (int_of_digits Hne Hdigits), (strip_letter Hletter).
    reflexivity. }
  destruct (traverse_all_ok question_of_match (findall pattern text))
    as (qs & Hqs & Hin).
  { intros m Hm. destruct (Hone m Hm) as (? & ? & ? & ? & ? & ? & ? & ? & ? & ?
                                          & _ & _ & Hq). eauto. }
  exists qs. split; [exact Hqs|].
  intros q Hq. destruct (Hin q Hq) as (m & Hm & Hfm).
  destruct (Hone m Hm) as (pre & u & post & digits & stem & a & b & c & d
                           & letter & Htext & Hshape & Hfm').
  rewrite Hfm in Hfm'. injection Hfm' as ->.
  exists pre, u, post, digits, stem, a, b, c, d, letter. auto.
Qed.

(** The answer of a record of this parser is one of the four letters. *)
Lemma regex_parser_answer_letter text qs q :
  parse_quiz_output text = Ok qs -> In q qs ->
  In (answer q) [lit "A"; lit "B"; lit "C"; lit "D"].
Proof.
  intros Hp Hq. destruct (parse_quiz_output_sound text) as (qs' & Hp' & Hall).
  rewrite Hp in Hp'. injection Hp' as <-.
  destruct (Hall q Hq) as (pre & u & post & digits & stem & a & b & c & d
                           & letter & _ & Hshape & ->).
  destruct Hshape as (w1 & w2 & w3 & w4 & w5 & w6 & w7 & w8 & w9 & w10 & w11
                      & _ & _ & _ & _ & Hletter).
  simpl in *. intuition (subst; auto).
Qed.

Lemma save_all_rows self skill level qs : forall w,
  save_all self skill level qs w =
    (Ok tt,
     set_quiz_questions w
       (quiz_questions w ++ if conn self then saved_rows skill level qs else [])).
Proof.
  induction qs as [| q qs IH]; intros w.
  - simpl. unfold ret. destruct w, (conn self); simpl;
      rewrite app_nil_r; reflexivity.
  - cbn [save_all]. unfold bind, save_question.
    destruct (conn self) eqn:Hconn; simpl.
    + rewrite IH. unfold set_quiz_questions. simpl.
      rewrite <- app_assoc. reflexivity.
    + rewrite IH. reflexivity.
Qed.

(** C10: in the script without the filter, the number of a parsed question
    is the integer read from the digits of the marker Q<digits> that opens
    the piece of text its stem comes from, and saving stores that number as
    it is, with no renumbering; so the numbers stored follow the generator:
    they may repeat, need not follow one another, and need not start at 1,
    as in the run of [main] on a response numbered 7, 7, 3. *)
Theorem question_no_is_the_marker_number :
  (forall text qs q,
     parse_quiz_output text = Ok qs -> In q qs ->
     exists pre u post digits stem a b c d letter,
       text = pre ++ u ++ post /\
       question_text u digits stem a b c d letter /\
       question q = strip stem /\
       int_of_str digits = Some (question_no q)) /\
  (forall self skill level qs w,
     conn self = true ->
     exists w',
       save_all self skill level qs w = (Ok tt, w') /\
       quiz_questions w' = quiz_questions w ++ saved_rows skill level qs /\
       map row_question_no (saved_rows skill level qs) = map question_no qs) /\
  (exists w',
     main world_7_7_3 = (Ok tt, w') /\
     map row_question_no (quiz_questions w') = [7; 7; 3]%Z).
Proof.
  split; [|split].
  - intros text qs q Hp Hq.
    destruct (parse_quiz_output_sound text) as (qs' & Hp' & Hall).
    rewrite Hp in Hp'. injection Hp' as <-.
    destruct (Hall q Hq) as (pre & u & post & digits & stem & a & b & c & d
                             & letter & -> & Hshape & ->).
    exists pre, u, post, digits, stem, a, b, c, d, letter.
    split; [reflexivity|]. split; [exact Hshape|]. split; [reflexivity|].
    destruct Hshape as (w1 & w2 & w3 & w4 & w5 & w6 & w7 & w8 & w9 & w10 & w11
                        & _ & _ & Hne & Hdigits & _).
    apply int_of_digits; assumption.
  - intros self skill level qs w Hconn. rewrite save_all_rows, Hconn.
    eexists. split; [reflexivity|]. split; [reflexivity|].
    unfold saved_rows. rewrite map_map. reflexivity.
  - eexists. split; vm_compute; reflexivity.
Qed.

(** With no content for the skill, [generate_quiz] returns its message and
    the model is not called. *)
Lemma generate_quiz_without_content self skill level num_questions w :
  fst (get_content_for_skill (db self) skill w) = Ok [] ->
  generate_quiz self skill level num_questions w
    = (Ok (lit "No content found for skill: " ++ skill), w).
Proof.
  unfold generate_quiz, bind, get_content_for_skill.
  destruct (negb (conn (db self))); simpl.
  - reflexivity.
  - intros H. injection H as ->. reflexivity.
Qed.

End RegexParser.

Module UniquenessFilter.
Import QGtestrun4 Filter Runs.

Section Loop.

Variables (resume_id : Z) (skill level : str) (num_questions : Z).

Local Abbreviation history_rows := (Filter.history_rows resume_id).
Local Abbreviation persisted := (Filter.persisted resume_id).
Local Abbreviation picked := (Filter.picked resume_id skill level num_questions).
Local Abbreviation prompt_of := (Filter.prompt_of skill level num_questions).
Local Abbreviation asked := (Filter.asked skill level num_questions).

Local Abbreviation loop := (select_loop resume_id skill level num_questions).

Lemma persisted_nil w : persisted w [] = w.
Proof.
  destruct w. unfold persisted. simpl. rewrite !app_nil_r. reflexivity.
Qed.

Lemma persisted_cons w q qs :
  persisted
    (set_quiz_questions
       (set_resume_history w (resume_history w ++ [(resume_id, question q)]))
       (quiz_questions w ++ question_rows [q])) qs
  = persisted w (q :: qs).
Proof.
  unfold persisted, set_quiz_questions, set_resume_history. simpl.
  rewrite <- !app_assoc. reflexivity.
Qed.

(** The loop never raises; it adds [picked] to [final_qs] and commits it. *)
Lemma loop_picked parsed : forall final_qs q_no w,
  loop parsed final_qs q_no w =
    (Ok (final_qs ++ picked (resume_history w) (length final_qs) q_no parsed),
     persisted w (picked (resume_history w) (length final_qs) q_no parsed)).
Proof.
  induction parsed as [| c rest IH]; intros final_qs q_no w; simpl.
  - rewrite app_nil_r, persisted_nil. reflexivity.
  - destruct (Z.of_nat (length final_qs) =? num_questions)%Z.
    + rewrite app_nil_r, persisted_nil. reflexivity.
    + unfold bind, question_used_before, select_history. simpl.
      destruct (history_has (resume_history w) resume_id (c_question c)); simpl.
      * apply IH.
      * unfold store_used_question, store_question, insert_history,
          insert_question. simpl.
        rewrite IH. simpl. rewrite length_app. simpl.
        replace (length final_qs + 1) with (S (length final_qs)) by lia.
        rewrite <- app_assoc. simpl. f_equal.
        apply (persisted_cons w (accept c q_no skill level)).
Qed.

(** *** What the loop picks *)

Lemma picked_full rows count q_no parsed :
  Z.of_nat count = num_questions -> picked rows count q_no parsed = [].
Proof.
  intros H. destruct parsed as [| c rest]; simpl; [reflexivity|].
  apply Z.eqb_eq in H. rewrite H. reflexivity.
Qed.

(** An accepted question had a stem that was not in the history. *)
Lemma picked_fresh parsed : forall rows count q_no q,
  In q (picked rows count q_no parsed) ->
  history_has rows resume_id (question q) = false.
Proof.
  induction parsed as [| c rest IH]; intros rows count q_no q Hin; simpl in Hin.
  - contradiction.
  - destruct (Z.of_nat count =? num_questions)%Z; [contradiction|].
    destruct (history_has rows resume_id (c_question c)) eqn:Hused.
    + eapply IH; eassumption.
    + destruct Hin as [<- | Hin]; [exact Hused|].
      apply IH in Hin. rewrite history_has_app in Hin.
      apply orb_false_iff in Hin. tauto.
Qed.

(** No stem is accepted twice. *)
Lemma picked_NoDup parsed : forall rows count q_no,
  NoDup (map question (picked rows count q_no parsed)).
Proof.
  induction parsed as [| c rest IH]; intros rows count q_no; simpl.
  - constructor.
  - destruct (Z.of_nat count =? num_questions)%Z; [constructor|].
    destruct (history_has rows resume_id (c_question c)) eqn:Hused; [apply IH|].
    simpl. constructor; [|apply IH].
    intros Hin. apply in_map_iff in Hin as [q [Hq Hin]].
    apply picked_fresh in Hin. rewrite history_has_app in Hin.
    apply orb_false_iff in Hin as [_ Hin].
    unfold history_has in Hin. simpl in Hin.
    rewrite Z.eqb_refl, Hq, str_eqb_refl in Hin. discriminate.
Qed.

(** The display numbers go up by one from [q_no]. *)
Lemma picked_numbers parsed : forall rows count q_no,
  map question_no (picked rows count q_no parsed) =
  map (fun i => (q_no + Z.of_nat i)%Z)
    (seq 0 (length (picked rows count q_no parsed))).
Proof.
  induction parsed as [| c rest IH]; intros rows count q_no; simpl.
  - reflexivity.
  - destruct (Z.of_nat count =? num_questions)%Z; [reflexivity|].
    destruct (history_has rows resume_id (c_question c)); [apply IH|].
    simpl. rewrite Z.add_0_r. f_equal.
    rewrite IH, <- seq_shift, map_map. apply map_ext.
    intros i. lia.
Qed.

(** The skill and the level stored are those of the request. *)
Lemma picked_labels parsed : forall rows count q_no q,
  In q (picked rows count q_no parsed) ->
  QGtestrun4.skill q = skill /\ mode q = level.
Proof.
  induction parsed as [| c rest IH]; intros rows count q_no q Hin; simpl in Hin.
  - contradiction.
  - destruct (Z.of_nat count =? num_questions)%Z; [contradiction|].
    destruct (history_has rows resume_id (c_question c)).
    + eapply IH; eassumption.
    + destruct Hin as [<- | Hin]; [split; reflexivity|].
      eapply IH; eassumption.
Qed.

(** Never more than [num_questions] in all. *)
Lemma picked_bound parsed : forall rows count q_no,
  (Z.of_nat count <= num_questions)%Z ->
  (Z.of_nat (count + length (picked rows count q_no parsed)) <= num_questions)%Z.
Proof.
  induction parsed as [| c rest IH]; intros rows count q_no Hle; simpl.
  - rewrite Nat.add_0_r. exact Hle.
  - destruct (Z.eqb_spec (Z.of_nat count) num_questions) as [Heq | Hne].
    + simpl. rewrite Nat.add_0_r. exact Hle.
    + destruct (history_has rows resume_id (c_question c)); [apply IH; exact Hle|].
      simpl. rewrite <- Nat.add_succ_comm. apply IH. lia.
Qed.

(** Unless the loop stopped at [num_questions], every candidate has its stem
    in the history or among the accepted ones. *)
Lemma picked_complete parsed : forall rows count q_no c,
  Z.of_nat (count + length (picked rows count q_no parsed)) <> num_questions ->
  In c parsed ->
  history_has rows resume_id (c_question c) = true \/
  In (c_question c) (map question (picked rows count q_no parsed)).
Proof.
  induction parsed as [| c0 rest IH]; intros rows count q_no c Hne Hin.
  - contradiction.
  - simpl in Hne |- *.
    destruct (Z.eqb_spec (Z.of_nat count) num_questions) as [Heq | Hcount].
    + simpl in Hne. rewrite Nat.add_0_r in Hne. contradiction.
    + destruct (history_has rows resume_id (c_question c0)) eqn:Hused.
      * destruct Hin as [<- | Hin]; [left; exact Hused|].
        apply IH; assumption.
      * simpl in Hne |- *. rewrite <- Nat.add_succ_comm in Hne.
        destruct Hin as [<- | Hin]; [right; left; reflexivity|].
        destruct (IH _ _ _ c Hne Hin) as [H | H]; [|right; right; exact H].
        rewrite history_has_app in H. apply orb_true_iff in H as [H | H].
        -- left. exact H.
        -- right. left. unfold history_has in H. simpl in H.
           rewrite orb_false_r in H. apply andb_true_iff in H as [_ H].
           apply str_eqb_eq in H. exact H.
Qed.

(** The loop on a list cut in two: the second part goes on from the state
    the first part has left. *)
Lemma picked_app pre post : forall rows count q_no,
  picked rows count q_no (pre ++ post) =
  let qs_pre := picked rows count q_no pre in
  qs_pre ++ picked (rows ++ history_rows qs_pre) (count + length qs_pre)
              (q_no + Z.of_nat (length qs_pre)) post.
Proof.
  induction pre as [| c rest IH]; intros rows count q_no; simpl.
  - rewrite app_nil_r, Nat.add_0_r, Z.add_0_r. reflexivity.
  - destruct (Z.eqb_spec (Z.of_nat count) num_questions) as [Heq | Hne].
    + simpl. rewrite Nat.add_0_r. symmetry. apply picked_full. exact Heq.
    + destruct (history_has rows resume_id (c_question c)); [apply IH|].
      simpl. f_equal. rewrite IH. simpl.
      rewrite <- app_assoc, <- Nat.add_succ_comm. simpl.
      do 2 f_equal. rewrite Zpos_P_of_succ_nat. lia.
Qed.

Lemma picked_subseq parsed : forall rows count q_no,
  subseq (map candidate_of (picked rows count q_no parsed)) parsed.
Proof.
  induction parsed as [| c rest IH]; intros rows count q_no; simpl.
  - constructor.
  - destruct (Z.of_nat count =? num_questions)%Z; [constructor|].
    destruct (history_has rows resume_id (c_question c)).
    + apply subseq_skip, IH.
    + simpl. destruct c. apply subseq_take, IH.
Qed.

Lemma picked_numbers_below parsed rows count q_no q :
  In q (picked rows count q_no parsed) ->
  (question_no q < q_no + Z.of_nat (length (picked rows count q_no parsed)))%Z.
Proof.
  intros Hin. apply (in_map question_no) in Hin.
  rewrite picked_numbers in Hin. apply in_map_iff in Hin as [i [<- Hi]].
  apply in_seq in Hi. lia.
Qed.

Lemma history_rows_NoDup rows qs :
  NoDup rows -> NoDup (map question qs) ->
  (forall q, In q qs -> history_has rows resume_id (question q) = false) ->
  NoDup (rows ++ history_rows qs).
Proof.
  intros Hrows Hqs Hfresh. apply NoDup_app.
  - exact Hrows.
  - clear Hfresh. induction qs as [| q qs IH]; simpl; [constructor|].
    simpl in Hqs. apply NoDup_cons_iff in Hqs as [Hnotin Hqs].
    constructor; [|apply IH; exact Hqs].
    intros Hin. apply Hnotin. unfold history_rows in Hin.
    apply in_map_iff in Hin as [q' [Heq Hin]].
    apply in_map_iff. exists q'. split; [congruence | exact Hin].
  - intros [r t] Hin Hin'. unfold history_rows in Hin'.
    apply in_map_iff in Hin' as [q [Heq Hq]]. inversion Heq; subst.
    apply Hfresh in Hq. apply history_has_In in Hin. congruence.
Qed.

Lemma loop_start parsed w :
  loop parsed [] 1 w =
    (Ok (picked (resume_history w) 0 1 parsed),
     persisted w (picked (resume_history w) 0 1 parsed)).
Proof. rewrite loop_picked. reflexivity. Qed.

Lemma picked_cons rows count q_no c rest :
  picked rows count q_no (c :: rest) =
    if (Z.of_nat count =? num_questions)%Z then []
    else if history_has rows resume_id (c_question c)
    then picked rows count q_no rest
    else accept c q_no skill level
         :: picked (rows ++ [(resume_id, c_question c)]) (S count) (q_no + 1) rest.
Proof. reflexivity. Qed.

(** *** The claims on the loop *)

(** C2: in every run of the filter, for every examinee: a candidate that the
    scan reaches is accepted if and only if its exact stem is not recorded
    for the examinee at that moment; the pair (examinee, stem) is in the
    history as soon as the candidate is accepted, so that no stem is accepted
    twice, a second occurrence later in the same pool included; and a
    history without repeated rows stays without repeated rows, run after
    run. *)
Theorem accepted_iff_stem_never_recorded (parsed : list Candidate) (w : World) :
  exists final_qs w',
    loop parsed [] 1 w = (Ok final_qs, w') /\
    resume_history w' = resume_history w ++ history_rows final_qs /\
    (forall q, In q final_qs ->
       select_history resume_id (question q) w = false) /\
    NoDup (map question final_qs) /\
    (forall pre c post, parsed = pre ++ c :: post ->
       exists qs_pre w_pre,
         loop pre [] 1 w = (Ok qs_pre, w_pre) /\
         resume_history w_pre = resume_history w ++ history_rows qs_pre /\
         (Z.of_nat (length qs_pre) <> num_questions ->
          (select_history resume_id (c_question c) w_pre = false <->
           In (accept c (1 + Z.of_nat (length qs_pre)) skill level) final_qs))) /\
    (NoDup (resume_history w) -> NoDup (resume_history w')).
Proof.
  rewrite loop_start. set (rows := resume_history w).
  eexists; eexists; split; [reflexivity|].
  split; [reflexivity|].
  split; [intros q Hq; eapply picked_fresh; exact Hq|].
  split; [apply picked_NoDup|].
  split.
  - intros pre c post ->. rewrite loop_start. fold rows.
    set (qs_pre := picked rows 0 1 pre).
    eexists; eexists; split; [reflexivity|].
    split; [reflexivity|].
    intros Hcount. unfold select_history.
    change (resume_history (persisted w qs_pre)) with (rows ++ history_rows qs_pre).
    rewrite picked_app. fold qs_pre. cbv zeta.
    rewrite Nat.add_0_l, picked_cons.
    apply Z.eqb_neq in Hcount. rewrite Hcount.
    destruct (history_has (rows ++ history_rows qs_pre) resume_id (c_question c))
      eqn:Hused.
    + split; [discriminate|]. intros Hin. exfalso.
      apply in_app_or in Hin as [Hin | Hin].
      * apply picked_numbers_below in Hin. fold qs_pre in Hin.
        simpl in Hin. lia.
      * apply picked_fresh in Hin. simpl in Hin. congruence.
    + split; [|reflexivity]. intros _.
      apply in_or_app. right. left. reflexivity.
  - intros Hnodup.
    change (NoDup (rows ++ history_rows (picked rows 0 1 parsed))).
    apply history_rows_NoDup.
    + exact Hnodup.
    + apply picked_NoDup.
    + intros q Hq. eapply picked_fresh. exact Hq.
Qed.

(** *** The whole operation *)

Local Abbreviation generate :=
  (generate_unique_questions resume_id skill level num_questions).

Lemma generate_run w :
  generate w =
    match _parse_questions (gemini w (prompt_of w)) with
    | Raise e => (Raise e, asked w)
    | Ok parsed =>
        let final_qs := picked (resume_history w) 0 1 parsed in
        (Ok (if (Z.of_nat (length final_qs) <? num_questions)%Z
             then Message not_enough else Questions final_qs),
         persisted (asked w) final_qs)
    end.
Proof.
  unfold generate_unique_questions, bind, get_content_for_skill,
    generate_content, lift.
  fold (prompt_of w). fold (asked w).
  destruct (_parse_questions (gemini w (prompt_of w))) as [parsed | e];
    [|reflexivity].
  rewrite loop_start. cbv zeta.
  change (resume_history (asked w)) with (resume_history w).
  destruct (Z.of_nat _ <? num_questions)%Z; reflexivity.
Qed.

(** C5: the display numbers of the accepted questions are 1, 2, .., K in the
    order of acceptance, K being the number accepted, in the list returned
    and in the rows stored; the candidates carry no number of their own (the
    marker Q<digits> is consumed by the split), so the numbers written in the
    generated text play no part. *)
Theorem display_numbers_are_one_to_K (w : World) :
  (forall parsed, exists final_qs w',
     loop parsed [] 1 w = (Ok final_qs, w') /\
     map question_no final_qs = map Z.of_nat (seq 1 (length final_qs)) /\
     quiz_questions w' = quiz_questions w ++ question_rows final_qs /\
     map row_question_no (question_rows final_qs)
       = map Z.of_nat (seq 1 (length final_qs))) /\
  (forall final_qs w', generate w = (Ok (Questions final_qs), w') ->
     map question_no final_qs = map Z.of_nat (seq 1 (length final_qs))).
Proof.
  assert (Hnum : forall parsed,
    map question_no (picked (resume_history w) 0 1 parsed) =
    map Z.of_nat (seq 1 (length (picked (resume_history w) 0 1 parsed)))).
  { intros parsed. rewrite picked_numbers, <- seq_shift, map_map.
    apply map_ext. intros i. lia. }
  split.
  - intros parsed. rewrite loop_start.
    eexists; eexists; split; [reflexivity|].
    split; [apply Hnum|]. split; [reflexivity|].
    unfold question_rows. rewrite map_map. simpl. apply Hnum.
  - intros final_qs w' Hgen. rewrite generate_run in Hgen.
    destruct (_parse_questions (gemini w (prompt_of w))) as [parsed | e];
      [|discriminate].
    cbv zeta in Hgen. destruct (Z.of_nat _ <? num_questions)%Z; [discriminate|].
    inversion Hgen; subst. apply Hnum.
Qed.

(** C4: the prompt sent asks for [num_questions * 2] questions, whatever the
    target (the factor is written in the code); the candidates parsed from
    the response are scanned in the order they appear; once [num_questions]
    are accepted the rest of the list has no effect at all; and no more than
    [num_questions] are accepted. *)
Theorem oversample_twice_and_stop_at_target (w : World) :
  (0 <= num_questions)%Z ->
  prompts_sent (snd (generate w)) =
    prompts_sent w ++
      [_build_prompt skill level (num_questions * 2)
         (join_space (select_content skill w))] /\
  (forall parsed final_qs q_no w0,
     Z.of_nat (length final_qs) = num_questions ->
     loop parsed final_qs q_no w0 = (Ok final_qs, w0)) /\
  (forall parsed, _parse_questions (gemini w (prompt_of w)) = Ok parsed ->
     exists final_qs w',
       loop parsed [] 1 (asked w) = (Ok final_qs, w') /\
       generate w =
         (Ok (if (Z.of_nat (length final_qs) <? num_questions)%Z
              then Message not_enough else Questions final_qs), w') /\
       subseq (map candidate_of final_qs) parsed /\
       (Z.of_nat (length final_qs) <= num_questions)%Z /\
       (forall pre post qs_pre w_pre,
          parsed = pre ++ post ->
          loop pre [] 1 (asked w) = (Ok qs_pre, w_pre) ->
          Z.of_nat (length qs_pre) = num_questions ->
          final_qs = qs_pre /\ w' = w_pre)).
Proof.
  intros Hpos. split; [|split].
  - rewrite generate_run.
    destruct (_parse_questions (gemini w (prompt_of w))); reflexivity.
  - intros parsed final_qs q_no w0 Hfull. rewrite loop_picked.
    rewrite picked_full by exact Hfull.
    rewrite app_nil_r, persisted_nil. reflexivity.
  - intros parsed Hparsed. rewrite generate_run, Hparsed, loop_start.
    change (resume_history (asked w)) with (resume_history w).
    eexists; eexists; split; [reflexivity|].
    split; [reflexivity|].
    split; [apply picked_subseq|].
    split; [apply (picked_bound parsed (resume_history w) 0 1); exact Hpos|].
    intros pre post qs_pre w_pre -> Hpre Hfull.
    rewrite loop_start in Hpre.
    change (resume_history (asked w)) with (resume_history w) in Hpre.
    injection Hpre as <- <-.
    rewrite picked_app. cbv zeta. rewrite Nat.add_0_l.
    rewrite (fun r q => @picked_full r _ q post Hfull), app_nil_r.
    split; reflexivity.
Qed.

(** C3: when the loop has gone through the pool and fewer than
    [num_questions] candidates were accepted, [generate_unique_questions]
    returns its message; the session then stops on an exception before any
    answer is read and before [store_score], so that no attempt is stored;
    the questions and the history rows written by the loop are still
    there. *)
Theorem insufficient_unique_questions (w : World) parsed final_qs w1 :
  _parse_questions (gemini w (prompt_of w)) = Ok parsed ->
  loop parsed [] 1 (asked w) = (Ok final_qs, w1) ->
  (Z.of_nat (length final_qs) < num_questions)%Z ->
  generate w = (Ok (Message not_enough), w1) /\
  quiz_questions w1 = quiz_questions w ++ question_rows final_qs /\
  resume_history w1 = resume_history w ++ history_rows final_qs /\
  exists w2,
    session resume_id skill level num_questions w = (Raise TypeError, w2) /\
    quiz_attempts w2 = quiz_attempts w /\
    stdin w2 = stdin w /\
    quiz_questions w2 = quiz_questions w1 /\
    resume_history w2 = resume_history w1.
Proof.
  intros Hparsed Hloop Hfew.
  rewrite loop_start in Hloop.
  change (resume_history (asked w)) with (resume_history w) in Hloop.
  inversion Hloop; subst. clear Hloop.
  apply Z.ltb_lt in Hfew.
  assert (Hgen : generate w =
    (Ok (Message not_enough),
     persisted (asked w) (picked (resume_history w) 0 1 parsed))).
  { rewrite generate_run, Hparsed. cbv zeta. rewrite Hfew. reflexivity. }
  split; [exact Hgen|].
  split; [reflexivity|]. split; [reflexivity|].
  unfold session, bind. rewrite Hgen. simpl.
  eexists. split; [reflexivity|]. simpl. repeat split.
Qed.

End Loop.

(** *** A run: five candidates with the stems S1 S2 S1 S3 S4 *)

Example first_two_distinct_stems :
  exists final_qs w',
    generate_unique_questions 7 algorithms beginner 2 fresh_world
      = (Ok (Questions final_qs), w') /\
    map question final_qs = [lit "S1"; lit "S2"] /\
    map question_no final_qs = [1; 2]%Z /\
    resume_history w' = [(7%Z, lit "S1"); (7%Z, lit "S2")].
Proof.
  eexists; eexists; split; [vm_compute; reflexivity|].
  repeat split.
Qed.

Example history_skips_S1 :
  exists final_qs w',
    generate_unique_questions 7 algorithms beginner 2 seen_S1_world
      = (Ok (Questions final_qs), w') /\
    map question final_qs = [lit "S2"; lit "S3"] /\
    map question_no final_qs = [1; 2]%Z.
Proof.
  eexists; eexists; split; [vm_compute; reflexivity|].
  repeat split.
Qed.

(** The run of [fresh_world] with two questions asked for: the prompt asks
    for four, two are accepted. *)
Lemma oversample_twice_witness :
  prompts_sent (snd (generate_unique_questions 7 algorithms beginner 2 fresh_world))
    = [_build_prompt algorithms beginner 4
         (lit "Binary search operates on sorted arrays")] /\
  exists final_qs w',
    generate_unique_questions 7 algorithms beginner 2 fresh_world
      = (Ok (Questions final_qs), w') /\
    length final_qs = 2.
Proof.
  destruct (@oversample_twice_and_stop_at_target 7 algorithms beginner 2
              fresh_world ltac:(lia)) as (Hprompt & _ & Hscan).
  split; [exact Hprompt|].
  destruct (Hscan _ eq_refl) as (final_qs & w' & Hloop & Hgen & _).
  exists final_qs, w'.
  rewrite loop_start in Hloop. inversion Hloop; subst.
  split; [exact Hgen | reflexivity].
Defined.

(** Four are asked for, the five candidates hold four distinct stems, and
    one of them was already shown. *)
Lemma insufficient_unique_questions_witness :
  exists w1 w2,
    generate_unique_questions 7 algorithms beginner 4 seen_S1_world
      = (Ok (Message not_enough), w1) /\
    map row_question (quiz_questions w1) = [lit "S2"; lit "S3"; lit "S4"] /\
    session 7 algorithms beginner 4 seen_S1_world = (Raise TypeError, w2) /\
    quiz_attempts w2 = [] /\
    map row_question (quiz_questions w2) = [lit "S2"; lit "S3"; lit "S4"].
Proof.
  edestruct (@insufficient_unique_questions 7 algorithms beginner 4
               seen_S1_world) as (Hgen & Hq & _ & w2 & Hs & Ha & _ & Hq2 & _).
  - reflexivity.
  - apply loop_start.
  - vm_compute. reflexivity.
  - eexists; exists w2.
    split; [exact Hgen|].
    split; [rewrite Hq; reflexivity|].
    split; [exact Hs|].
    split; [rewrite Ha; reflexivity|].
    rewrite Hq2, Hq. reflexivity.
Defined.

End UniquenessFilter.

Module Scoring.
Import QGtestrun4 Score Runs.

Lemma tally_bounds qs : forall lines,
  (0 <= tally qs lines <= Z.of_nat (length qs))%Z.
Proof.
  induction qs as [| q qs IH]; intros [| line lines]; simpl tally;
    simpl length; try lia.
  specialize (IH lines). destruct (counted q line); lia.
Qed.

(** The quiz loop reads one line per question and adds the tally to the
    count; only the standard input and output change. *)
Lemma ask_tally qs : forall lines rest correct_count w,
  stdin w = lines ++ rest ->
  length lines = length qs ->
  exists out,
    ask qs correct_count w =
      (Ok (correct_count + tally qs lines)%Z, set_io w rest out).
Proof.
  induction qs as [| q qs IH]; intros lines rest correct_count w Hin Hlen.
  - destruct lines; [|discriminate]. simpl in Hin.
    exists (stdout w). cbn [ask tally]. unfold ret.
    rewrite Z.add_0_r, <- Hin, set_io_same. reflexivity.
  - destruct lines as [| line lines]; [discriminate|].
    injection Hlen as Hlen. cbn [ask tally].
    do 5 (rewrite bind_print, ?stdin_set_io, ?stdout_set_io, ?set_io_twice).
    rewrite (@bind_input _ _ _ _ line (lines ++ rest))
      by (rewrite stdin_set_io; exact Hin).
    rewrite stdout_set_io, set_io_twice. fold (counted q line).
    match goal with
    | |- context [ask qs ?c ?w'] =>
        destruct (IH lines rest c w' (stdin_set_io _ _ _) Hlen) as [out Hout];
        rewrite Hout
    end.
    exists out. rewrite set_io_twice. f_equal. f_equal.
    destruct (counted q line); lia.
Qed.

(** The key of correct answers is only printed. *)
Lemma show_answers_prints qs : forall w,
  exists out, show_answers qs w = (Ok tt, set_io w (stdin w) out).
Proof.
  induction qs as [| q qs IH]; intros w.
  - exists (stdout w). rewrite set_io_same. reflexivity.
  - cbn [show_answers]. rewrite bind_print.
    match goal with
    | |- context [show_answers qs ?w'] => destruct (IH w') as [out Hout]; rewrite Hout
    end.
    exists out. rewrite stdin_set_io, set_io_twice. reflexivity.
Qed.

(** A session whose questions were found: the attempt stored holds the
    tally of the answers typed. *)
Lemma session_stores_tally resume_id skill level num_q w final_qs w1 lines rest :
  generate_unique_questions resume_id skill level num_q w
    = (Ok (Questions final_qs), w1) ->
  stdin w1 = lines ++ rest ->
  length lines = length final_qs ->
  exists w2,
    session resume_id skill level num_q w = (Ok tt, w2) /\
    quiz_attempts w2 =
      quiz_attempts w1
      ++ [mkAttemptRow resume_id skill level num_q (tally final_qs lines)].
Proof.
  intros Hgen Hin Hlen. unfold session.
  rewrite (@bind_run _ _ _ _ _ _ _ Hgen), bind_print. cbn [for_questions].
  match goal with
  | |- context [bind (ask final_qs 0%Z) _ ?w'] =>
      destruct (@ask_tally final_qs lines rest 0%Z w') as [out Hout];
      [rewrite stdin_set_io; exact Hin | exact Hlen |];
      rewrite (@bind_run _ _ _ _ _ _ _ Hout)
  end.
  rewrite Z.add_0_l, set_io_twice.
  unfold store_score.
  match goal with
  | |- context [bind (insert_attempt ?r) _ ?w'] =>
      rewrite (@bind_run _ _ (insert_attempt r) _ w' tt
                 (set_quiz_attempts w' (quiz_attempts w' ++ [r])) eq_refl)
  end.
  rewrite !bind_print.
  match goal with
  | |- context [show_answers final_qs ?w'] =>
      destruct (show_answers_prints final_qs w') as [out' Hout']; rewrite Hout'
  end.
  eexists. split; reflexivity.
Qed.

(** C9: the answer typed is stripped and put in upper case before it is
    compared with the stored letter: with the letter B stored, the answer b
    is counted; the count of correct answers goes up by exactly one for each
    question whose normalised answer is the stored letter, and by nothing
    otherwise; and that count is the one stored with the attempt. *)
Theorem answers_are_upper_cased_then_tallied :
  (forall q, correct q = lit "B" -> counted q (lit "b") = true) /\
  (forall q rest correct_count w,
     correct q = lit "B" -> stdin w = lit "b" :: rest ->
     exists w', ask [q] correct_count w = (Ok (correct_count + 1)%Z, w')) /\
  (forall q qs line rest correct_count w,
     stdin w = line :: rest ->
     exists w',
       stdin w' = rest /\
       ask (q :: qs) correct_count w =
         ask qs (if str_eqb (upper (strip line)) (correct q)
                 then correct_count + 1 else correct_count)%Z w') /\
  (forall qs lines rest w,
     stdin w = lines ++ rest -> length lines = length qs ->
     exists w', ask qs 0 w = (Ok (tally qs lines), w') /\ stdin w' = rest) /\
  (forall resume_id skill level num_q w final_qs w1 lines rest,
     generate_unique_questions resume_id skill level num_q w
       = (Ok (Questions final_qs), w1) ->
     stdin w1 = lines ++ rest -> length lines = length final_qs ->
     exists w2,
       session resume_id skill level num_q w = (Ok tt, w2) /\
       quiz_attempts w2 =
         quiz_attempts w1
         ++ [mkAttemptRow resume_id skill level num_q (tally final_qs lines)]).
Proof.
  split; [|split; [|split; [|split]]].
  - intros q Hq. unfold counted. rewrite Hq. reflexivity.
  - intros q rest correct_count w Hq Hin.
    destruct (@ask_tally [q] [lit "b"] rest correct_count w Hin eq_refl)
      as [out Hout].
    eexists. rewrite Hout. simpl tally. unfold counted. rewrite Hq.
    reflexivity.
  - intros q qs line rest correct_count w Hin.
    eexists. split; [|cbn [ask]; rewrite !bind_print;
                      rewrite (@bind_input _ _ _ _ line rest) by exact Hin;
                      reflexivity].
    apply stdin_set_io.
  - intros qs lines rest w Hin Hlen.
    destruct (@ask_tally qs lines rest 0%Z w Hin Hlen) as [out Hout].
    eexists. split; [exact Hout | reflexivity].
  - intros. eapply session_stores_tally; eassumption.
Qed.

(** The run of [fresh_world]: the answers typed are a and b with blanks
    around it, the letters stored are A and B. *)
Example two_lower_case_answers_score_two :
  exists w2,
    session 7 algorithms beginner 2
      fresh_world = (Ok tt, w2) /\
    quiz_attempts w2 =
      [mkAttemptRow 7 algorithms beginner 2 2].
Proof. eexists. split; vm_compute; reflexivity. Qed.

End Scoring.

Module BlockParser.
Import QGtestrun4 Runs.

(** A block with fewer than six lines raises [IndexError]: nothing checks
    the number of lines before they are indexed. *)
Lemma parse_block_short block :
  length (split nl (strip block)) < 6 -> parse_block block = Raise IndexError.
Proof.
  unfold parse_block, index. cbv zeta.
  destruct (split nl (strip block)) as [| l0 [| l1 [| l2 [| l3 [| l4 [| l5 rest]]]]]];
    simpl length; intros Hlen; try lia; cbn [nth_error rbind];
    repeat (match goal with
            | |- context [match ?l with [] => _ | _ :: _ => _ end] =>
                destruct l as [| ? [| ? ?]]
            end; cbn [rbind]);
    reflexivity.
Qed.

(** C1, on the code: [_parse_questions] raises [IndexError] on a text whose
    last block is incomplete, and the exception ends the session, whereas
    the claim has the incomplete block dropped and the rest returned, as
    [parse_quiz_output] does on the same text. *)
Theorem incomplete_block_raises_IndexError :
  _parse_questions cut_short = Raise IndexError /\
  (exists w',
     session 7 algorithms beginner 1
       (world_of cut_short) = (Raise IndexError, w') /\
     quiz_questions w' = [] /\ quiz_attempts w' = []) /\
  (exists q,
     QGtestrun3.parse_quiz_output cut_short = Ok [q] /\
     QGtestrun3.question q = lit "S1").
Proof.
  split; [vm_compute; reflexivity|].
  split; eexists; (split; [vm_compute; reflexivity|]).
  - split; reflexivity.
  - reflexivity.
Qed.

(** C6, on the code: [_parse_questions] takes the stem from the first line of
    the block only and each option from a fixed line, so a stem on two lines
    loses its second line and shifts every other field, whereas the claim
    has the line feed kept inside the stem, as [parse_quiz_output] keeps
    it. *)
Theorem stem_line_feed_is_lost :
  _parse_questions stem_on_two_lines =
    Ok [mkCandidate (lit "What does this print?") (lit ")") (lit "1") (lit "2")
          (lit "3") (lit "x is undefined")] /\
  QGtestrun3.parse_quiz_output stem_on_two_lines =
    Ok [QGtestrun3.mkQuestion 1
          (text_of ["What does this print?"; "print(len(x))"]%string)
          (lit "1") (lit "2") (lit "3") (lit "error: x is undefined") (lit "A")].
Proof. split; vm_compute; reflexivity. Qed.

(** C7, on the code: [_parse_questions] stores whatever follows the first
    colon of the sixth line, here the text B) two, which is none of the four
    letters and which no typed answer can equal, whereas
    [parse_quiz_output] keeps the letter B. *)
Theorem answer_is_not_checked_to_be_a_letter :
  (exists q,
     _parse_questions answer_with_option = Ok [q] /\
     c_correct q = lit "B) two" /\
     ~ In (c_correct q) [lit "A"; lit "B"; lit "C"; lit "D"]) /\
  (exists q,
     QGtestrun3.parse_quiz_output answer_with_option = Ok [q] /\
     QGtestrun3.answer q = lit "B").
Proof.
  split; eexists; (split; [vm_compute; reflexivity|]).
  - split; [reflexivity|]. simpl. intros H.
    repeat (destruct H as [H | H]; [discriminate H|]). exact H.
  - reflexivity.
Qed.

(** C8, on the code: [generate_unique_questions] has no test of the content:
    for a skill without any content it builds the prompt with an empty
    context and calls the model, whereas [generate_quiz] returns its message
    without calling it. *)
Theorem empty_content_still_calls_the_model :
  let w := fresh_world in
  let cooking := lit "Cooking" in
  get_content_for_skill cooking w = (Ok [], w) /\
  prompts_sent (snd (generate_unique_questions 7 cooking beginner 2 w))
    = [_build_prompt cooking beginner 4 []] /\
  (exists final_qs w',
     generate_unique_questions 7 cooking beginner 2 w
       = (Ok (Questions final_qs), w') /\ length final_qs = 2) /\
  QGtestrun3.generate_quiz
    (QGtestrun3.mkQuizGenerator (QGtestrun3.mkDatabase true)) cooking
    beginner 2 w
    = (Ok (lit "No content found for skill: Cooking"), w).
Proof.
  cbv zeta. split; [vm_compute; reflexivity|].
  split; [vm_compute; reflexivity|].
  split; [|vm_compute; reflexivity].
  eexists; eexists. split; [vm_compute; reflexivity | reflexivity].
Qed.

(** Whatever the content, the model is called once, with the prompt built
    for twice the number of questions. *)
Lemma model_is_always_called resume_id skill level num_questions w :
  prompts_sent (snd (generate_unique_questions resume_id skill level num_questions w))
    = prompts_sent w
      ++ [_build_prompt skill level (num_questions * 2)
            (join_space (select_content skill w))].
Proof.
  rewrite UniquenessFilter.generate_run.
  destruct (_parse_questions _); reflexivity.
Qed.

End BlockParser.


(** ** More on the two parsers *)

Module ParsedFields.
Import Texts Matches Shapes Runs RegexFacts TextFacts.

Lemma strip_trimmed s : trimmed (strip s).
Proof.
  split.
  - destruct (strip s) as [| c s'] eqn:H; [exact I|].
    eapply strip_first. exact H.
  - destruct (rev (strip s)) as [| c r] eqn:H; [exact I|].
    apply (f_equal (@rev ascii)) in H. rewrite rev_involutive in H.
    simpl in H. eapply strip_last. exact H.
Qed.

Lemma strip_keeps_inside s x : In x (strip s) -> In x s.
Proof.
  intros H. destruct (strip_split s) as (lead & trail & Hs & _).
  rewrite Hs. apply in_or_app. right. apply in_or_app. left. exact H.
Qed.

Lemma split_from_chars sep s : forall budget cur p x,
  In p (split_from sep budget cur s) -> In x p -> In x cur \/ In x s.
Proof.
  induction s as [| c s IH]; intros budget cur p x Hp Hx; simpl in Hp.
  - destruct Hp as [<- | []]. auto.
  - destruct (Ascii.eqb c sep).
    + destruct budget as [[| k] |].
      * destruct Hp as [<- | []]. apply in_app_or in Hx. tauto.
      * destruct Hp as [<- | Hp]; [auto|].
        destruct (IH _ _ _ _ Hp Hx) as [[] | H]. right. right. exact H.
      * destruct Hp as [<- | Hp]; [auto|].
        destruct (IH _ _ _ _ Hp Hx) as [[] | H]. right. right. exact H.
    + destruct (IH _ _ _ _ Hp Hx) as [H | H].
      * apply in_app_or in H as [H | [<- | []]]; [auto | right; left; reflexivity].
      * right. right. exact H.
Qed.

Lemma split_pieces_without_sep sep s : forall cur p,
  ~ In sep cur -> In p (split_from sep None cur s) -> ~ In sep p.
Proof.
  induction s as [| c s IH]; intros cur p Hcur Hp; simpl in Hp.
  - destruct Hp as [<- | []]. exact Hcur.
  - destruct (Ascii.eqb_spec c sep) as [-> | Hne].
    + destruct Hp as [<- | Hp]; [exact Hcur|].
      eapply IH; [|exact Hp]. intros [].
    + eapply IH; [|exact Hp]. intros H.
      apply in_app_or in H as [H | [H | []]]; [auto | congruence].
Qed.

Lemma index_In {X} (l : list X) i x : index l i = Ok x -> In x l.
Proof.
  unfold index. destruct (nth_error l i) eqn:H; [|discriminate].
  intros Heq. injection Heq as <-. eapply nth_error_In. exact H.
Qed.

Lemma index_Raise {X} (l : list X) i e : index l i = Raise e -> e = IndexError.
Proof.
  unfold index. destruct (nth_error l i); [discriminate|].
  intros H. injection H as <-. reflexivity.
Qed.

Lemma traverse_Ok_inv {X Y} (f : X -> result Y) l : forall ys y,
  traverse f l = Ok ys -> In y ys -> exists x, In x l /\ f x = Ok y.
Proof.
  induction l as [| x l IH]; intros ys y H Hy; simpl in H.
  - injection H as <-. contradiction.
  - destruct (f x) as [y0 |] eqn:Hx; [|discriminate]. simpl in H.
    destruct (traverse f l) as [ys0 |] eqn:Hl; [|discriminate]. simpl in H.
    injection H as <-. destruct Hy as [<- | Hy].
    + exists x. simpl. auto.
    + destruct (IH _ _ eq_refl Hy) as (x' & Hin & Hfx). exists x'. simpl. auto.
Qed.

Lemma traverse_Raise_inv {X Y} (f : X -> result Y) l : forall e,
  traverse f l = Raise e -> exists x, In x l /\ f x = Raise e.
Proof.
  induction l as [| x l IH]; intros e H; simpl in H.
  - discriminate.
  - destruct (f x) as [y0 | e0] eqn:Hx; simpl in H.
    + destruct (traverse f l) as [ys0 | e1] eqn:Hl; simpl in H; [discriminate|].
      injection H as <-. destruct (IH _ eq_refl) as (x' & Hin & Hfx).
      exists x'. simpl. auto.
    + injection H as <-. exists x. simpl. auto.
Qed.

Ltac invert_index H :=
  repeat match type of H with
         | rbind (index ?l ?i) _ = _ =>
             let E := fresh "E" in
             destruct (index l i) eqn:E; cbn [rbind] in H
         end.

Ltac index_step H x E :=
  match type of H with
  | rbind (index ?l ?i) _ = _ =>
      destruct (index l i) as [x |] eqn:E; cbn [rbind] in H; [|discriminate H];
      apply index_In in E
  end.

(** What one block gives, when it gives a record. *)
Lemma parse_block_fields block c :
  QGtestrun4.parse_block block = Ok c ->
  exists l0 l1 l2 l3 l4 l5 a b c' d ans,
    Forall (fun l => In l (split nl (strip block))) [l0; l1; l2; l3; l4; l5] /\
    In a (split_max ")" 1 l1) /\ In b (split_max ")" 1 l2) /\
    In c' (split_max ")" 1 l3) /\ In d (split_max ")" 1 l4) /\
    In ans (split ":" l5) /\
    c = QGtestrun4.mkCandidate (strip l0) (strip a) (strip b) (strip c')
          (strip d) (strip ans).
Proof.
  unfold QGtestrun4.parse_block. cbv zeta. intros H.
  index_step H l0 E0. index_step H l1 E1. index_step H a Ea.
  index_step H l2 E2. index_step H b Eb.
  index_step H l3 E3. index_step H c' Ec.
  index_step H l4 E4. index_step H d Ed.
  index_step H l5 E5. index_step H ans Eans.
  injection H as <-.
  exists l0, l1, l2, l3, l4, l5, a, b, c', d, ans.
  split; [repeat constructor; assumption|]. tauto.
Qed.

Lemma parse_block_only_IndexError block e :
  QGtestrun4.parse_block block = Raise e -> e = IndexError.
Proof.
  unfold QGtestrun4.parse_block. cbv zeta. intros H.
  invert_index H; try discriminate H;
    injection H as <-;
    match goal with
    | E : index _ _ = Raise _ |- _ => apply index_Raise in E; exact E
    end.
Qed.



(** X3: when [_parse_questions] returns, every field of every record (the
    stem, the four options and the answer) lies on one line, with no line
    feed inside, and neither starts nor ends with a blank. *)
Theorem parse_questions_fields_are_single_lines text cs c :
  QGtestrun4._parse_questions text = Ok cs -> In c cs ->
  Forall (fun f => one_line f /\ trimmed f)
    [QGtestrun4.c_question c; QGtestrun4.c_A c; QGtestrun4.c_B c;
     QGtestrun4.c_C c; QGtestrun4.c_D c; QGtestrun4.c_correct c].
Proof.
  unfold QGtestrun4._parse_questions. cbv zeta. intros H Hc.
  destruct (traverse_Ok_inv _ _ _ H Hc) as (block & _ & Hblock).
  apply parse_block_fields in Hblock
    as (l0 & l1 & l2 & l3 & l4 & l5 & a & b & c' & d & ans & Hlines
        & Ha & Hb & Hc' & Hd & Hans & ->).
  assert (Hline : forall l, In l (split nl (strip block)) -> one_line l).
  { intros l Hl. eapply split_pieces_without_sep; [|exact Hl]. intros []. }
  assert (Hpiece : forall sep budget l p,
            one_line l -> In p (split_from sep budget [] l) ->
            one_line (strip p) /\ trimmed (strip p)).
  { intros sep budget l p Hl Hp. split; [|apply strip_trimmed].
    intros Hin. apply strip_keeps_inside in Hin.
    destruct (split_from_chars _ _ _ _ _ _ Hp Hin) as [[] | Hin']. auto. }
  inversion Hlines as [| ? ? H0 Hl1]; subst.
  inversion Hl1 as [| ? ? H1 Hl2]; subst.
  inversion Hl2 as [| ? ? H2 Hl3]; subst.
  inversion Hl3 as [| ? ? H3 Hl4]; subst.
  inversion Hl4 as [| ? ? H4 Hl5]; subst.
  inversion Hl5 as [| ? ? H5 _]; subst.
  cbn [QGtestrun4.c_question QGtestrun4.c_A QGtestrun4.c_B QGtestrun4.c_C
       QGtestrun4.c_D QGtestrun4.c_correct].
  repeat constructor; try apply strip_trimmed.
  - intros Hin. apply strip_keeps_inside in Hin. exact (Hline _ H0 Hin).
  - exact (proj1 (Hpiece _ _ _ _ (Hline _ H1) Ha)).
  - exact (proj1 (Hpiece _ _ _ _ (Hline _ H2) Hb)).
  - exact (proj1 (Hpiece _ _ _ _ (Hline _ H3) Hc')).
  - exact (proj1 (Hpiece _ _ _ _ (Hline _ H4) Hd)).
  - exact (proj1 (Hpiece _ _ _ _ (Hline _ H5) Hans)).
Qed.

(** The five questions of [five_blocks]. *)
Lemma parse_questions_fields_witness :
  exists cs c,
    QGtestrun4._parse_questions five_blocks = Ok cs /\ In c cs /\
    Forall (fun f => one_line f /\ trimmed f)
      [QGtestrun4.c_question c; QGtestrun4.c_A c; QGtestrun4.c_B c;
       QGtestrun4.c_C c; QGtestrun4.c_D c; QGtestrun4.c_correct c].
Proof.
  eexists; eexists.
  assert (H : QGtestrun4._parse_questions five_blocks = Ok _)
    by (vm_compute; reflexivity).
  split; [exact H|]. split; [left; reflexivity|].
  eapply parse_questions_fields_are_single_lines; [exact H | left; reflexivity].
Defined.

(** X4: the only exception that [_parse_questions] raises is [IndexError],
    and it raises it as soon as one block, stripped, has fewer than six
    lines; the questions parsed before that block are lost with it. *)
Theorem parse_questions_raises_only_IndexError :
  (forall text e, QGtestrun4._parse_questions text = Raise e -> e = IndexError) /\
  (forall text block,
     In block (tl (re_split QGtestrun4.marker text)) ->
     length (split nl (strip block)) < 6 ->
     QGtestrun4._parse_questions text = Raise IndexError).
Proof.
  split.
  - unfold QGtestrun4._parse_questions. cbv zeta. intros text e H.
    apply traverse_Raise_inv in H as (block & _ & H).
    eapply parse_block_only_IndexError. exact H.
  - unfold QGtestrun4._parse_questions. cbv zeta. intros text block Hin Hshort.
    apply BlockParser.parse_block_short in Hshort.
    induction (tl (re_split QGtestrun4.marker text)) as [| x l IH];
      [contradiction|].
    simpl. destruct (QGtestrun4.parse_block x) as [y | e] eqn:Hx; simpl.
    + destruct Hin as [-> | Hin]; [congruence|].
      rewrite (IH Hin). reflexivity.
    + apply parse_block_only_IndexError in Hx. subst. reflexivity.
Qed.

Lemma scan_without_first_letter x g r s : forall gap,
  ~ In x s ->
  scan (mkAtom (Lit x) One g :: r) 0 gap s = ([], gap ++ s).
Proof.
  induction s as [| c s IH]; intros gap Hx.
  - rewrite app_nil_r. reflexivity.
  - cbn [scan match_here a_quant a_cls cls_match].
    destruct (Ascii.eqb_spec c x) as [-> | Hne].
    + exfalso. apply Hx. left. reflexivity.
    + rewrite IH by (intros H; apply Hx; right; exact H).
      rewrite <- app_assoc. reflexivity.
Qed.

(** X5: a text without the letter Q holds no question for either parser:
    both return the empty list. *)
Theorem no_Q_no_question text :
  ~ In "Q"%char text ->
  QGtestrun4._parse_questions text = Ok [] /\
  QGtestrun3.parse_quiz_output text = Ok [].
Proof.
  intros HQ. split.
  - unfold QGtestrun4._parse_questions, re_split. cbv zeta.
    change QGtestrun4.marker
      with (mkAtom (Lit "Q") One false
            :: [mkAtom Digit Plus false; mkAtom (Lit ".") One false]).
    rewrite scan_without_first_letter by exact HQ. reflexivity.
  - unfold QGtestrun3.parse_quiz_output, findall. cbv zeta.
    unfold QGtestrun3.pattern. cbn [chars lit list_ascii_of_string map app].
    rewrite scan_without_first_letter by exact HQ. reflexivity.
Qed.

(** The message that [generate_quiz] returns for a skill without content. *)
Lemma no_Q_no_question_witness :
  QGtestrun4._parse_questions (lit "No content found for skill: Java") = Ok [] /\
  QGtestrun3.parse_quiz_output (lit "No content found for skill: Java") = Ok [].
Proof.
  apply no_Q_no_question. vm_compute.
  intros H. repeat (destruct H as [H | H]; [discriminate H|]). exact H.
Defined.

End ParsedFields.

(** ** More on the history and the filter *)

Module FilterMore.
Import QGtestrun4 Filter Runs.


(** The rows of one resume. *)
Lemma history_has_own_rows rows resume_id s :
  history_has rows resume_id s
  = history_has (filter (fun r => Z.eqb (fst r) resume_id) rows) resume_id s.
Proof.
  unfold history_has. induction rows as [| [r q] rows IH]; [reflexivity|].
  simpl. destruct (Z.eqb r resume_id) eqn:Hr; simpl.
  - rewrite Hr, IH. reflexivity.
  - exact IH.
Qed.

Lemma picked_same_answers resume_id skill level num_questions parsed :
  forall rows1 rows2 count q_no,
    (forall s, history_has rows1 resume_id s = history_has rows2 resume_id s) ->
    picked resume_id skill level num_questions rows1 count q_no parsed
    = picked resume_id skill level num_questions rows2 count q_no parsed.
Proof.
  induction parsed as [| c rest IH]; intros rows1 rows2 count q_no Hsame;
    [reflexivity|].
  cbn [picked]. rewrite (Hsame (c_question c)).
  destruct (Z.of_nat count =? num_questions)%Z; [reflexivity|].
  destruct (history_has rows2 resume_id (c_question c)).
  - apply IH. exact Hsame.
  - cbv zeta. f_equal. apply IH. intros s.
    rewrite !history_has_app, Hsame. reflexivity.
Qed.

(** X7: the filter is per resume: the questions it accepts for one resume
    depend on the rows of that resume in [resume_history] only; the rows of
    the other resumes, whatever they are, change nothing. *)
Theorem filter_reads_own_rows_only resume_id skill level num_questions parsed
  w1 w2 :
  filter (fun r => Z.eqb (fst r) resume_id) (resume_history w1)
  = filter (fun r => Z.eqb (fst r) resume_id) (resume_history w2) ->
  fst (select_loop resume_id skill level num_questions parsed [] 1 w1)
  = fst (select_loop resume_id skill level num_questions parsed [] 1 w2).
Proof.
  intros Hrows. rewrite !UniquenessFilter.loop_start. cbn [fst]. f_equal.
  apply picked_same_answers. intros s.
  rewrite (history_has_own_rows (resume_history w1)),
    (history_has_own_rows (resume_history w2)), Hrows.
  reflexivity.
Qed.

(** Resume 7 gets S1 and S2 whether or not resume 8 has seen S1. *)
Lemma filter_reads_own_rows_witness :
  fst (select_loop 7 algorithms beginner 2
         (match _parse_questions five_blocks with Ok l => l | Raise _ => [] end)
         [] 1 fresh_world)
  = fst (select_loop 7 algorithms beginner 2
         (match _parse_questions five_blocks with Ok l => l | Raise _ => [] end)
         [] 1 (set_resume_history fresh_world [(8%Z, lit "S1")])).
Proof.
  apply filter_reads_own_rows_only. reflexivity.
Defined.

(** X8: no repetition from one run to the next: a stem accepted for a
    resume in one run is never accepted again for that resume in a later
    run, whatever the pool, the skill, the level and the target of the later
    run, as long as no row of [resume_history] was removed in between. *)
Theorem no_stem_twice_over_runs resume_id
  skill level num_questions parsed
  skill' level' num_questions' parsed' w later :
  exists final_qs w1,
    select_loop resume_id skill level num_questions parsed [] 1 w
      = (Ok final_qs, w1) /\
    (incl (resume_history w1) (resume_history later) ->
     exists final_qs' w2,
       select_loop resume_id skill' level' num_questions' parsed' [] 1 later
         = (Ok final_qs', w2) /\
       forall q q', In q final_qs -> In q' final_qs' ->
                    question q <> question q').
Proof.
  rewrite UniquenessFilter.loop_start.
  eexists; eexists; split; [reflexivity|].
  intros Hkept. rewrite UniquenessFilter.loop_start.
  eexists; eexists; split; [reflexivity|].
  intros q q' Hq Hq' Heq.
  apply UniquenessFilter.picked_fresh in Hq'.
  assert (Hrow : In (resume_id, question q) (resume_history later)).
  { apply Hkept. cbn [Filter.persisted resume_history].
    apply in_or_app. right. unfold Filter.history_rows.
    apply in_map_iff. exists q. auto. }
  apply history_has_In in Hrow. congruence.
Qed.

(** X9: whatever its outcome, [generate_unique_questions] calls the model
    exactly once, adds to [quiz_questions] and to [resume_history] the rows
    of the same accepted questions (none when the parser raises), and leaves
    [quiz_attempts], [skill_set] and the standard input and output as they
    were. *)
Theorem generate_touches_two_tables resume_id skill level num_questions w :
  exists r w' final_qs,
    generate_unique_questions resume_id skill level num_questions w = (r, w') /\
    quiz_questions w' = quiz_questions w ++ question_rows final_qs /\
    resume_history w' = resume_history w ++ history_rows resume_id final_qs /\
    prompts_sent w' =
      prompts_sent w
      ++ [_build_prompt skill level (num_questions * 2)
            (join_space (select_content skill w))] /\
    quiz_attempts w' = quiz_attempts w /\ skill_set w' = skill_set w /\
    stdin w' = stdin w /\ stdout w' = stdout w /\
    match r with
    | Ok (Questions l) => l = final_qs
    | Ok (Message m) =>
        m = not_enough /\ (Z.of_nat (length final_qs) < num_questions)%Z
    | Raise e => final_qs = []
    end.
Proof.
  rewrite UniquenessFilter.generate_run.
  destruct (_parse_questions _) as [parsed | e].
  - cbv zeta.
    set (final_qs := picked resume_id skill level num_questions
                       (resume_history w) 0 1 parsed).
    exists (if (Z.of_nat (length final_qs) <? num_questions)%Z
            then Ok (Message not_enough) else Ok (Questions final_qs)).
    eexists. exists final_qs.
    split; [destruct (Z.of_nat (length final_qs) <? num_questions)%Z; reflexivity|].
    repeat (split; [reflexivity|]).
    destruct (Z.ltb_spec (Z.of_nat (length final_qs)) num_questions); auto.
  - eexists; eexists; exists []. split; [reflexivity|].
    cbn [question_rows history_rows map].
    rewrite !app_nil_r. repeat (split; [reflexivity|]). reflexivity.
Qed.

Lemma returned_list_length resume_id skill level num_questions w final_qs w' :
  (0 <= num_questions)%Z ->
  generate_unique_questions resume_id skill level num_questions w
    = (Ok (Questions final_qs), w') ->
  Z.of_nat (length final_qs) = num_questions.
Proof.
  intros Hpos Hgen. rewrite UniquenessFilter.generate_run in Hgen.
  destruct (_parse_questions _) as [parsed | e]; [|discriminate].
  cbv zeta in Hgen.
  destruct (Z.ltb_spec
              (Z.of_nat (length (picked resume_id skill level num_questions
                                   (resume_history w) 0 1 parsed)))
              num_questions) as [Hlt | Hge]; [discriminate|].
  injection Hgen as <- _.
  pose proof (UniquenessFilter.picked_bound resume_id skill level parsed
                (resume_history w) 0 1 Hpos) as Hle.
  cbn [Nat.add] in Hle. lia.
Qed.

(** X10: when [generate_unique_questions] returns a list for a target that is
    not negative, the list holds exactly that many questions, numbered from
    1, each with the skill and the level that were asked for. *)
Theorem returned_list_is_complete resume_id skill level num_questions w
  final_qs w' :
  (0 <= num_questions)%Z ->
  generate_unique_questions resume_id skill level num_questions w
    = (Ok (Questions final_qs), w') ->
  Z.of_nat (length final_qs) = num_questions /\
  forall q, In q final_qs ->
    QGtestrun4.skill q = skill /\ mode q = level /\
    (1 <= question_no q <= num_questions)%Z.
Proof.
  intros Hpos Hgen. rewrite UniquenessFilter.generate_run in Hgen.
  destruct (_parse_questions _) as [parsed | e]; [|discriminate].
  cbv zeta in Hgen.
  destruct (Z.ltb_spec
              (Z.of_nat (length (picked resume_id skill level num_questions
                                   (resume_history w) 0 1 parsed)))
              num_questions) as [Hlt | Hge]; [discriminate|].
  injection Hgen as <- _.
  pose proof (UniquenessFilter.picked_bound resume_id skill level parsed
                (resume_history w) 0 1 Hpos) as Hle.
  cbn [Nat.add] in Hle.
  split; [lia|].
  intros q Hq.
  destruct (UniquenessFilter.picked_labels _ _ _ _ _ _ _ _ _ Hq) as [Hs Hm].
  split; [exact Hs|]. split; [exact Hm|].
  pose proof (UniquenessFilter.picked_numbers_below _ _ _ _ _ _ _ _ _ Hq) as Hup.
  apply (in_map question_no) in Hq.
  rewrite UniquenessFilter.picked_numbers in Hq.
  apply in_map_iff in Hq as (i & Hi & _). lia.
Qed.

Lemma returned_list_witness :
  exists final_qs w',
    generate_unique_questions 7 algorithms beginner 2 fresh_world
      = (Ok (Questions final_qs), w') /\
    Z.of_nat (length final_qs) = 2%Z /\
    forall q, In q final_qs ->
      QGtestrun4.skill q = algorithms /\ mode q = beginner /\
      (1 <= question_no q <= 2)%Z.
Proof.
  eexists; eexists.
  assert (H : generate_unique_questions 7 algorithms beginner 2 fresh_world
              = (Ok (Questions _), _)) by (vm_compute; reflexivity).
  split; [exact H|].
  eapply returned_list_is_complete with (w := fresh_world);
    [lia | exact H].
Defined.

(** X19: the message of insufficiency is returned only when the pool is
    used up: after such a run every stem of the pool is recorded for the
    resume, either from before or because it was just accepted. *)
Theorem insufficient_means_pool_used_up resume_id skill level num_questions w
  parsed m w' :
  _parse_questions (gemini w (prompt_of skill level num_questions w)) = Ok parsed ->
  generate_unique_questions resume_id skill level num_questions w
    = (Ok (Message m), w') ->
  forall c, In c parsed ->
    select_history resume_id (c_question c) w' = true.
Proof.
  intros Hparsed Hgen c Hc.
  rewrite UniquenessFilter.generate_run, Hparsed in Hgen. cbv zeta in Hgen.
  destruct (Z.ltb_spec
              (Z.of_nat (length (picked resume_id skill level num_questions
                                   (resume_history w) 0 1 parsed)))
              num_questions) as [Hlt | Hge]; [|discriminate].
  injection Hgen as _ <-.
  unfold select_history. cbn [Filter.persisted resume_history].
  change (resume_history (asked skill level num_questions w))
    with (resume_history w).
  rewrite history_has_app.
  destruct (@UniquenessFilter.picked_complete resume_id skill level
              num_questions parsed (resume_history w) 0 1 c) as [H | H];
    [cbn [Nat.add]; lia | exact Hc | rewrite H; reflexivity |].
  apply orb_true_iff. right. apply history_has_In.
  apply in_map_iff in H as (q & Hq & Hin).
  unfold history_rows. apply in_map_iff. exists q. rewrite Hq. auto.
Qed.

(** Four are asked for, three can be accepted: the five stems of the pool
    are recorded afterwards. *)
Lemma insufficient_means_pool_used_up_witness :
  exists parsed w',
    _parse_questions five_blocks = Ok parsed /\
    generate_unique_questions 7 algorithms beginner 4 seen_S1_world
      = (Ok (Message not_enough), w') /\
    forall c, In c parsed -> select_history 7 (c_question c) w' = true.
Proof.
  eexists; eexists.
  assert (Hp : _parse_questions five_blocks = Ok _) by (vm_compute; reflexivity).
  assert (Hg : generate_unique_questions 7 algorithms beginner 4 seen_S1_world
               = (Ok (Message not_enough), _)) by (vm_compute; reflexivity).
  split; [exact Hp|]. split; [exact Hg|].
  exact (@insufficient_means_pool_used_up 7 algorithms beginner 4 seen_S1_world
           _ _ _ Hp Hg).
Defined.

(** X20: targets that are not positive. With the target 0 the model is
    still called, nothing is accepted and the empty list is returned. With
    a negative target the test that ends the loop never holds: every novel
    stem of the pool is accepted and the list is returned, never the
    message. *)
Theorem targets_that_are_not_positive resume_id skill level num_questions w
  parsed :
  _parse_questions (gemini w (prompt_of skill level num_questions w)) = Ok parsed ->
  (num_questions = 0%Z ->
   generate_unique_questions resume_id skill level num_questions w
     = (Ok (Questions []), asked skill level num_questions w)) /\
  ((num_questions < 0)%Z ->
   exists final_qs w',
     generate_unique_questions resume_id skill level num_questions w
       = (Ok (Questions final_qs), w') /\
     forall c, In c parsed ->
       select_history resume_id (c_question c) w = true \/
       In (c_question c) (map question final_qs)).
Proof.
  intros Hparsed. split.
  - intros ->. rewrite UniquenessFilter.generate_run, Hparsed. cbv zeta.
    rewrite (@UniquenessFilter.picked_full resume_id skill level 0%Z) by reflexivity.
    cbn [length Z.of_nat Z.ltb Z.compare].
    rewrite UniquenessFilter.persisted_nil. reflexivity.
  - intros Hneg. rewrite UniquenessFilter.generate_run, Hparsed. cbv zeta.
    destruct (Z.ltb_spec
                (Z.of_nat (length (picked resume_id skill level num_questions
                                     (resume_history w) 0 1 parsed)))
                num_questions) as [Hlt | Hge]; [lia|].
    eexists; eexists. split; [reflexivity|].
    intros c Hc.
    apply (@UniquenessFilter.picked_complete resume_id skill level
             num_questions parsed (resume_history w) 0 1 c);
      [cbn [Nat.add]; lia | exact Hc].
Qed.

(** With the target -1 the four distinct stems of the pool are accepted. *)
Lemma negative_target_witness :
  exists final_qs w',
    generate_unique_questions 7 algorithms beginner (-1) fresh_world
      = (Ok (Questions final_qs), w') /\
    map question final_qs = [lit "S1"; lit "S2"; lit "S3"; lit "S4"].
Proof.
  assert (Hp : _parse_questions five_blocks = Ok _) by (vm_compute; reflexivity).
  destruct (proj2 (@targets_that_are_not_positive 7 algorithms beginner (-1)
                     fresh_world _ Hp) ltac:(lia))
    as (final_qs & w' & Hg & _).
  exists final_qs, w'. split; [exact Hg|].
  assert (Hg' : generate_unique_questions 7 algorithms beginner (-1) fresh_world
                = (Ok (Questions _), _)) by (vm_compute; reflexivity).
  rewrite Hg' in Hg. injection Hg as <- _. reflexivity.
Defined.

End FilterMore.

(** ** More on the session *)

Module SessionMore.
Import QGtestrun4 Score Shapes Texts Runs TextFacts.

Lemma bind_raise {X Y} (m : M X) (f : X -> M Y) w e w' :
  m w = (Raise e, w') -> bind m f w = (Raise e, w').
Proof. intros H. unfold bind. rewrite H. reflexivity. Qed.

Lemma bind_input_eof {Y} prompt (f : str -> M Y) w :
  stdin w = [] ->
  bind (input prompt) f w = (Raise EOFError, set_io w [] (stdout w ++ [prompt])).
Proof. intros H. unfold bind, input. rewrite H. reflexivity. Qed.

(** With fewer lines to read than questions, the quiz loop ends on
    [EOFError] once the lines are used up. *)
Lemma ask_out_of_lines qs : forall correct_count w,
  length (stdin w) < length qs ->
  exists out, ask qs correct_count w = (Raise EOFError, set_io w [] out).
Proof.
  induction qs as [| q qs IH]; intros correct_count w Hlen.
  - simpl in Hlen. lia.
  - cbn [ask].
    do 5 (rewrite bind_print, ?stdin_set_io, ?stdout_set_io, ?set_io_twice).
    destruct (stdin w) as [| line rest] eqn:Hin.
    + rewrite bind_input_eof by apply stdin_set_io.
      rewrite set_io_twice. eexists. reflexivity.
    + rewrite (@bind_input _ _ _ _ line rest) by apply stdin_set_io.
      rewrite stdout_set_io, set_io_twice.
      match goal with
      | |- context [ask qs ?c ?w'] =>
          destruct (IH c w') as [out Hout];
          [rewrite stdin_set_io; simpl in Hlen; lia | rewrite Hout]
      end.
      exists out. rewrite set_io_twice. reflexivity.
Qed.

(** X11: when the questions were found but fewer answers can be read than
    there are questions, the session ends on [EOFError]: no attempt is
    stored, and the questions and history rows written before stay. *)
Theorem session_without_enough_answers resume_id skill level num_q w
  final_qs w1 :
  generate_unique_questions resume_id skill level num_q w
    = (Ok (Questions final_qs), w1) ->
  length (stdin w1) < length final_qs ->
  exists w2,
    session resume_id skill level num_q w = (Raise EOFError, w2) /\
    quiz_attempts w2 = quiz_attempts w1 /\
    quiz_questions w2 = quiz_questions w1 /\
    resume_history w2 = resume_history w1 /\
    stdin w2 = [].
Proof.
  intros Hgen Hlen. unfold session.
  rewrite (@bind_run _ _ _ _ _ _ _ Hgen), bind_print. cbn [for_questions].
  match goal with
  | |- context [bind (ask final_qs 0%Z) _ ?w'] =>
      destruct (@ask_out_of_lines final_qs 0%Z w') as [out Hout];
      [rewrite stdin_set_io; exact Hlen |];
      rewrite (@bind_raise _ _ _ _ _ _ _ Hout)
  end.
  eexists. split; [reflexivity|]. repeat split.
Qed.

(** Two questions are found and one answer only can be read. *)
Lemma session_without_enough_answers_witness :
  exists w2,
    session 7 algorithms beginner 2 (set_io fresh_world [lit "a"] [])
      = (Raise EOFError, w2) /\
    quiz_attempts w2 = [] /\ length (quiz_questions w2) = 2.
Proof.
  assert (H : generate_unique_questions 7 algorithms beginner 2
                (set_io fresh_world [lit "a"] []) = (Ok (Questions _), _))
    by (vm_compute; reflexivity).
  destruct (session_without_enough_answers _ _ _ _ _ H)
    as (w2 & Hs & Ha & Hq & _); [simpl; lia|].
  exists w2. split; [exact Hs|]. split; [rewrite Ha; reflexivity|].
  rewrite Hq. reflexivity.
Defined.

(** X12: for a target that is not negative, a session that runs to its end
    stores exactly one attempt, whose total is the number asked for and
    whose number of correct answers lies between 0 and that total. *)
Theorem attempt_score_is_within_total resume_id skill level num_q w
  final_qs w1 lines rest :
  (0 <= num_q)%Z ->
  generate_unique_questions resume_id skill level num_q w
    = (Ok (Questions final_qs), w1) ->
  stdin w1 = lines ++ rest ->
  length lines = length final_qs ->
  exists w2 attempt,
    session resume_id skill level num_q w = (Ok tt, w2) /\
    quiz_attempts w2 = quiz_attempts w1 ++ [attempt] /\
    att_resume_id attempt = resume_id /\
    att_total_questions attempt = num_q /\
    (0 <= att_correct_answers attempt <= att_total_questions attempt)%Z.
Proof.
  intros Hpos Hgen Hin Hlen.
  edestruct Scoring.session_stores_tally as (w2 & Hs & Ha);
    [exact Hgen | exact Hin | exact Hlen |].
  exists w2. eexists. split; [exact Hs|]. split; [exact Ha|].
  cbn [att_resume_id att_total_questions att_correct_answers].
  split; [reflexivity|]. split; [reflexivity|].
  pose proof (Scoring.tally_bounds final_qs lines) as Hb.
  assert (Hn : Z.of_nat (length final_qs) = num_q)
    by (eapply FilterMore.returned_list_length; eassumption).
  lia.
Qed.

Lemma attempt_score_witness :
  exists w2 attempt,
    session 7 algorithms beginner 2 fresh_world = (Ok tt, w2) /\
    quiz_attempts w2 = [attempt] /\
    att_total_questions attempt = 2%Z /\
    (0 <= att_correct_answers attempt <= 2)%Z.
Proof.
  assert (H : generate_unique_questions 7 algorithms beginner 2 fresh_world
              = (Ok (Questions _), _)) by (vm_compute; reflexivity).
  destruct (@attempt_score_is_within_total 7 algorithms beginner 2 fresh_world
              _ _ [lit "a"; lit " b "] [] ltac:(lia) H eq_refl eq_refl)
    as (w2 & attempt & Hs & Ha & _ & Ht & Hc).
  exists w2, attempt. split; [exact Hs|]. split; [exact Ha|].
  split; [exact Ht|]. rewrite Ht in Hc. exact Hc.
Defined.

Lemma lstrip_blank t : blank t -> lstrip t = [].
Proof.
  unfold blank. induction t as [| c t IH]; simpl; [reflexivity|].
  intros H. apply andb_true_iff in H as [Hc Ht]. rewrite Hc. auto.
Qed.

Lemma lstrip_after_blank lead s : blank lead -> lstrip (lead ++ s) = lstrip s.
Proof.
  unfold blank. induction lead as [| c lead IH]; simpl; [reflexivity|].
  intros H. apply andb_true_iff in H as [Hc Hl]. rewrite Hc. auto.
Qed.

Lemma rstrip_before_blank s trail : blank trail -> rstrip (s ++ trail) = rstrip s.
Proof.
  intros H. unfold rstrip. rewrite rev_app_distr.
  rewrite lstrip_after_blank by (apply blank_rev; exact H). reflexivity.
Qed.

Lemma strip_between_blanks lead s trail :
  blank lead -> blank trail -> strip (lead ++ s ++ trail) = strip s.
Proof.
  intros Hlead Htrail. unfold strip.
  rewrite lstrip_after_blank by exact Hlead.
  induction s as [| c s IH]; simpl.
  - rewrite (lstrip_blank Htrail). reflexivity.
  - destruct (isspace c); [exact IH|].
    change (c :: s ++ trail) with ((c :: s) ++ trail).
    apply rstrip_before_blank. exact Htrail.
Qed.

Lemma isspace_upper_char c : isspace (upper_char c) = isspace c.
Proof. destruct c as [[] [] [] [] [] [] [] []]; reflexivity. Qed.

Lemma upper_char_twice c : upper_char (upper_char c) = upper_char c.
Proof. destruct c as [[] [] [] [] [] [] [] []]; reflexivity. Qed.

Lemma islower_upper_char c : islower (upper_char c) = false.
Proof. destruct c as [[] [] [] [] [] [] [] []]; reflexivity. Qed.

Lemma lstrip_upper s : lstrip (upper s) = upper (lstrip s).
Proof.
  induction s as [| c s IH]; simpl; [reflexivity|].
  rewrite isspace_upper_char. destruct (isspace c); [exact IH | reflexivity].
Qed.

Lemma rev_upper s : rev (upper s) = upper (rev s).
Proof. unfold upper. symmetry. apply map_rev. Qed.

Lemma strip_upper s : strip (upper s) = upper (strip s).
Proof.
  unfold strip, rstrip.
  rewrite lstrip_upper, rev_upper, lstrip_upper, rev_upper. reflexivity.
Qed.

(** X13: the blanks typed around an answer and the case of its letters do
    not change whether it is counted: an answer between blanks is counted
    as the answer alone, and an answer in upper case as the answer as
    typed. *)
Theorem answer_blanks_and_case_are_ignored :
  (forall q line lead trail,
     blank lead -> blank trail ->
     counted q (lead ++ line ++ trail) = counted q line) /\
  (forall q line, counted q (upper line) = counted q line).
Proof.
  split.
  - intros q line lead trail Hlead Htrail. unfold counted.
    rewrite strip_between_blanks by assumption. reflexivity.
  - intros q line. unfold counted. rewrite strip_upper.
    unfold upper. rewrite map_map.
    rewrite (map_ext _ _ upper_char_twice). reflexivity.
Qed.

(** X14: only the answer typed is put in upper case, the stored one is not:
    when the stored answer holds a lower-case letter, no answer whatever is
    counted as correct for that question. *)
Theorem stored_lower_case_never_matches q :
  existsb islower (correct q) = true ->
  forall line, counted q line = false.
Proof.
  intros Hlow line. unfold counted. apply str_eqb_neq. intros Heq.
  rewrite <- Heq in Hlow. apply existsb_exists in Hlow as (c & Hc & Hl).
  unfold upper in Hc. apply in_map_iff in Hc as (c0 & <- & _).
  rewrite islower_upper_char in Hl. discriminate.
Qed.

(** The letter b stored: neither b nor B is counted. *)
Lemma stored_lower_case_witness :
  let q := mkQuestion (lit "S1") (lit "one") (lit "two") (lit "three")
             (lit "four") (lit "b") 1 algorithms beginner in
  counted q (lit "b") = false /\ counted q (lit "B") = false.
Proof.
  cbv zeta. split; apply stored_lower_case_never_matches; reflexivity.
Defined.

End SessionMore.

(** ** More on the two main programs *)

Module Mains.
Import Texts Saved Runs TextFacts.

Lemma print_each (f : str -> str) l : forall w,
  fold_right (fun t k => print (f t) ;;; k) (ret tt) l w
  = (Ok tt, set_io w (stdin w) (stdout w ++ map f l)).
Proof.
  induction l as [| t l IH]; intros w.
  - simpl. unfold ret. rewrite app_nil_r, set_io_same. reflexivity.
  - cbn [fold_right map]. rewrite bind_print, IH.
    rewrite stdin_set_io, stdout_set_io, set_io_twice, <- app_assoc.
    reflexivity.
Qed.




Lemma init_without_key w :
  gemini_api_key w = None \/ gemini_api_key w = Some [] ->
  QGtestrun3.QuizGenerator_init w
  = (Raise (SystemExit 1),
     set_io w (stdin w) (stdout w ++ [lit "GEMINI_API_KEY missing in .env"])).
Proof.
  unfold QGtestrun3.QuizGenerator_init. intros [-> | ->]; reflexivity.
Qed.

Lemma init_with_key w key :
  gemini_api_key w = Some key -> key <> [] ->
  QGtestrun3.QuizGenerator_init w
  = (Ok (QGtestrun3.mkQuizGenerator (QGtestrun3.mkDatabase (mysql_up w))),
     set_io w (stdin w)
       (stdout w ++ [if mysql_up w then lit "Connected to MySQL database."
                     else lit "Database connection error"])).
Proof.
  unfold QGtestrun3.QuizGenerator_init, QGtestrun3.Database_init.
  intros -> Hkey. destruct key as [| c key]; [contradiction|].
  destruct (mysql_up w) eqn:Hup; unfold bind, print, ret; rewrite Hup; reflexivity.
Qed.

(** X16: [main] of QGtestrun3 stops before anything is asked or generated
    when it cannot start: without an API key it exits with status 1, and
    with a key but no connection to the database, or no row in [skill_set],
    it prints that no topic was found and returns; in both cases it only
    prints: no line is read, the model is not called, no table changes. *)
Theorem main_stops_when_it_cannot_start w :
  (gemini_api_key w = None \/ gemini_api_key w = Some [] ->
   exists out,
     QGtestrun3.main w = (Raise (SystemExit 1), set_io w (stdin w) out)) /\
  (forall key,
     gemini_api_key w = Some key -> key <> [] ->
     mysql_up w = false \/ skill_set w = [] ->
     exists out,
       QGtestrun3.main w
       = (Ok tt, set_io w (stdin w) (out ++ [lit "No topics found in database."]))).
Proof.
  split.
  - intros Hkey. unfold QGtestrun3.main. rewrite bind_print.
    erewrite SessionMore.bind_raise by (apply init_without_key; exact Hkey).
    rewrite stdin_set_io, stdout_set_io, set_io_twice. eexists. reflexivity.
  - intros key Hkey Hne Hdown. unfold QGtestrun3.main. rewrite bind_print.
    erewrite bind_run by (eapply init_with_key; [exact Hkey | exact Hne]).
    rewrite stdin_set_io, stdout_set_io, set_io_twice.
    cbv zeta. cbn [QGtestrun3.db mysql_up set_io].
    unfold QGtestrun3.get_all_topics. cbn [QGtestrun3.conn].
    destruct Hdown as [Hdown | Hdown].
    + rewrite Hdown. cbn [negb]. unfold bind at 1, ret.
      eexists. reflexivity.
    + destruct (mysql_up w); cbn [negb]; unfold bind at 1, ret.
      * unfold select_topics. cbn [skill_set set_io]. rewrite Hdown.
        cbn [map nodup]. eexists. reflexivity.
      * eexists. reflexivity.
Qed.






Lemma bind_read_int {Y} prompt (f : Z -> M Y) w line rest :
  stdin w = line :: rest ->
  bind (QGtestrun4.read_int prompt) f w =
    match int_of_str (strip line) with
    | Some n => f n (set_io w rest (stdout w ++ [prompt]))
    | None => (Raise ValueError, set_io w rest (stdout w ++ [prompt]))
    end.
Proof.
  intros H. unfold QGtestrun4.read_int, bind, input. rewrite H.
  destruct (int_of_str (strip line)); reflexivity.
Qed.

Lemma bind_database_init {Y} (f : unit -> M Y) w :
  bind QGtestrun4.Database_init f w =
    if mysql_up w then f tt w else (Raise MySQLError, w).
Proof.
  unfold bind, QGtestrun4.Database_init. destruct (mysql_up w); reflexivity.
Qed.

(** X18: [main] of QGtestrun4 ends on the connection error when the
    database cannot be reached, before any line is read; it ends on
    [ValueError] when the resume id or the number of questions typed is not
    an integer, and then the model is not called and no table changes; and
    with four good lines it runs the session for the resume id, the skill
    and the level stripped, and the number typed, the four lines being
    consumed. *)
Theorem main_reads_four_lines w :
  (mysql_up w = false ->
   exists out,
     QGtestrun4.main w = (Raise MySQLError, set_io w (stdin w) out)) /\
  (forall skill_line level_line id_line rest,
     mysql_up w = true ->
     stdin w = skill_line :: level_line :: id_line :: rest ->
     int_of_str (strip id_line) = None ->
     exists out, QGtestrun4.main w = (Raise ValueError, set_io w rest out)) /\
  (forall skill_line level_line id_line num_line rest resume_id,
     mysql_up w = true ->
     stdin w = skill_line :: level_line :: id_line :: num_line :: rest ->
     int_of_str (strip id_line) = Some resume_id ->
     match int_of_str (strip num_line) with
     | None =>
         exists out, QGtestrun4.main w = (Raise ValueError, set_io w rest out)
     | Some num_q =>
         exists out,
           QGtestrun4.main w =
             QGtestrun4.session resume_id (strip skill_line) (strip level_line)
               num_q (set_io w rest out)
     end).
Proof.
  assert (Hstart : forall Y (k : M Y) W,
    mysql_up W = true ->
    exists out,
      bind QGtestrun4.get_all_topics
        (fun topics =>
           print ([nl] ++ lit "Skills Available:") ;;;
           fold_right (fun s k' => print (lit " - " ++ s) ;;; k') (ret tt) topics ;;;
           k) W
      = k (set_io W (stdin W) out)).
  { intros Y k W HW. unfold QGtestrun4.get_all_topics. unfold bind at 1.
    rewrite bind_print. erewrite bind_run by apply print_each.
    rewrite stdin_set_io, stdout_set_io, set_io_twice. eexists. reflexivity. }
  split; [|split].
  - intros Hup. unfold QGtestrun4.main.
    rewrite bind_print, bind_database_init. cbn [mysql_up set_io].
    rewrite Hup. eexists. reflexivity.
  - intros skill_line level_line id_line rest Hup Hin Hid.
    unfold QGtestrun4.main.
    rewrite bind_print, bind_database_init. cbn [mysql_up set_io].
    rewrite Hup.
    match goal with
    | |- context [bind QGtestrun4.get_all_topics _ ?W] =>
        destruct (Hstart _
          (skill_line0 <- input ([nl] ++ lit "Enter skill: ") ;;
           level_line0 <- input (lit "Enter level (Beginner / Intermediate / Expert): ") ;;
           resume_id <- QGtestrun4.read_int (lit "Enter Resume ID: ") ;;
           num_q <- QGtestrun4.read_int (lit "How many questions? ") ;;
           QGtestrun4.session resume_id (strip skill_line0) (strip level_line0) num_q)
          W Hup) as [out Hout]
    end.
    rewrite Hout. rewrite stdin_set_io, set_io_twice.
    erewrite bind_input by (rewrite stdin_set_io; exact Hin).
    rewrite stdout_set_io, set_io_twice.
    erewrite bind_input by (rewrite stdin_set_io; reflexivity).
    rewrite stdout_set_io, set_io_twice.
    erewrite bind_read_int by (rewrite stdin_set_io; reflexivity).
    rewrite Hid, stdout_set_io, set_io_twice. eexists. reflexivity.
  - intros skill_line level_line id_line num_line rest resume_id Hup Hin Hid.
    unfold QGtestrun4.main.
    rewrite bind_print, bind_database_init. cbn [mysql_up set_io].
    rewrite Hup.
    match goal with
    | |- context [bind QGtestrun4.get_all_topics _ ?W] =>
        destruct (Hstart _
          (skill_line0 <- input ([nl] ++ lit "Enter skill: ") ;;
           level_line0 <- input (lit "Enter level (Beginner / Intermediate / Expert): ") ;;
           resume_id <- QGtestrun4.read_int (lit "Enter Resume ID: ") ;;
           num_q <- QGtestrun4.read_int (lit "How many questions? ") ;;
           QGtestrun4.session resume_id (strip skill_line0) (strip level_line0) num_q)
          W Hup) as [out Hout]
    end.
    rewrite Hout. rewrite stdin_set_io, set_io_twice.
    erewrite bind_input by (rewrite stdin_set_io; exact Hin).
    rewrite stdout_set_io, set_io_twice.
    erewrite bind_input by (rewrite stdin_set_io; reflexivity).
    rewrite stdout_set_io, set_io_twice.
    erewrite bind_read_int by (rewrite stdin_set_io; reflexivity).
    rewrite Hid, stdout_set_io, set_io_twice.
    erewrite bind_read_int by (rewrite stdin_set_io; reflexivity).
    rewrite stdout_set_io, set_io_twice.
    destruct (int_of_str (strip num_line)); eexists; reflexivity.
Qed.

End Mains.
